(** * shutterfly-dl: a shallow embedding of [main.py]

    The development follows the source file top-down:
    - [Py]: exceptions and the [result] of a call that may raise;
    - [F64]: Python floats, as binary64 values with their rounding;
    - [Geo]: [decimal_to_dms] and [lat_long_decimal_to_dms], with
      [float] on the code points of a string;
    - [Dl]: the downloader [download_albums], as state passing over a
      file system, a log and the list of GET requests;
    - [Demo]: a small environment on which the program can be run;
    - [Fetch]: the fetcher [get_albums], over the values that the
      server sends and the list of POST requests;
    - [Cli]: the entry point [main], which runs the fetcher and then
      the downloader on what the fetcher returned;
    - [FetchDemo], [Strict], [Flaky]: a sample site, EXIF libraries
      that refuse in other ways, and a server whose streams break;
    - [Frames]: the vocabulary of the invariants;
    - [F64Facts], [GeoFacts], [DlFacts], [Runs]: the properties;
    - [FrameFacts], [GeoMore], [FetchFacts], [CliFacts], [MoreRuns]:
      what the downloader keeps, more on the converter, the fetcher,
      the entry point.  *)

From Stdlib Require Import ZArith QArith Qround Qabs Qpower Lia Lqa Ascii String.
From Stdlib.Strings Require Byte.
From stdpp Require Import base option list strings gmap pretty.

Close Scope Q_scope.
Open Scope Z_scope.

(** ** Python values *)

Module Py.

(** The exception classes that the program can meet. *)
Inductive exn_class :=
  | ValueError | OverflowError | ZeroDivisionError | TypeError
  | RuntimeError | NotImplementedError | RecursionError
  | FileExistsError | FileNotFoundError | IsADirectoryError | NotADirectoryError
  | ConnectionError | KeyError | AttributeError | OtherError.

Record exn := Exn { exn_cls : exn_class; exn_msg : string }.

(** [except RuntimeError] also catches the built-in subclasses. *)
Definition is_RuntimeError (e : exn) : bool :=
  match exn_cls e with
  | RuntimeError | NotImplementedError | RecursionError => true
  | _ => false
  end.

(** A call either returns a value or raises. *)
Inductive result (A : Type) :=
  | Ok (a : A)
  | Raise (e : exn).
Arguments Ok {A} a.
Arguments Raise {A} e.

#[global] Instance result_ret : MRet result := fun A a => Ok a.
#[global] Instance result_bind : MBind result := fun A B k r =>
  match r with
  | Ok a => k a
  | Raise e => Raise e
  end.

Definition is_ok {A} (r : result A) : bool :=
  match r with Ok _ => true | Raise _ => false end.

End Py.
Export Py.

(** ** binary64

    A Python [float] is an IEEE-754 binary64.  A finite float is
    represented by the rational it denotes; every arithmetic operation
    computes the exact rational and rounds it to the nearest binary64
    (ties to even), overflowing to an infinity.  The sign of zero is not
    represented: it is not observable through [<], [>], [abs], [divmod]
    by a positive number or [int]. *)

Module F64.

Inductive pyfloat :=
  | Finite (q : Q)
  | Inf (neg : bool)
  | NaN.

Definition pow2 (e : Z) : Q := Qpower 2 e.

(** Nearest integer, ties to even. *)
Definition round_half_even (q : Q) : Z :=
  let f := Qfloor q in
  match Qcompare (q - inject_Z f) (1 # 2) with
  | Lt => f
  | Gt => f + 1
  | Eq => if Z.even f then f else f + 1
  end.

(** [ilog2 q] is the integer [e] with [2^e <= q < 2^(e+1)], for [q > 0]. *)
Definition ilog2 (q : Q) : Z :=
  let k := Z.log2 (Qnum q) - Z.log2 (Zpos (Qden q)) in
  if Qle_bool (pow2 k) q then k else k - 1.

(** Exponent of the unit in the last place: 53 significant bits, and
    the subnormal spacing [2^-1074] at the bottom. *)
Definition ulp_exp (q : Q) : Z := Z.max (ilog2 (Qabs q) - 52) (-1074).

(** Rounding to the binary64 grid, exponent unbounded above. *)
Definition rnd (q : Q) : Q :=
  if Qeq_bool q 0 then 0%Q
  else (inject_Z (round_half_even (q / pow2 (ulp_exp q))) * pow2 (ulp_exp q))%Q.

Definition Qneg_bool (q : Q) : bool := negb (Qle_bool 0 q).

Definition round64 (q : Q) : pyfloat :=
  let r := rnd q in
  if Qle_bool (pow2 1024) (Qabs r) then Inf (Qneg_bool r) else Finite r.

(** The rationals that are binary64 values. *)
Definition is_binary64 (q : Q) : bool :=
  Qeq_bool (rnd q) q && negb (Qle_bool (pow2 1024) (Qabs q)).

Definition of_Z (z : Z) : pyfloat := round64 (inject_Z z).

(** The binary64 grid of spacing [2^j]. *)
Definition on_grid (j : Z) (g : Q) : Prop :=
  exists n : Z, (g == inject_Z n * pow2 j)%Q.

Definition is_zero (x : pyfloat) : bool :=
  match x with Finite q => Qeq_bool q 0 | _ => false end.

(** C truth value of a double: [if (x)] is [x != 0], true for NaN. *)
Definition truthy (x : pyfloat) : bool := negb (is_zero x).

Definition flt (x y : pyfloat) : bool :=
  match x, y with
  | NaN, _ | _, NaN => false
  | Finite a, Finite b => negb (Qle_bool b a)
  | Finite _, Inf neg => negb neg
  | Inf neg, Finite _ => neg
  | Inf n1, Inf n2 => n1 && negb n2
  end.

Definition fabs (x : pyfloat) : pyfloat :=
  match x with
  | Finite q => Finite (Qabs q)
  | Inf _ => Inf false
  | NaN => NaN
  end.

Definition fneg (x : pyfloat) : pyfloat :=
  match x with
  | Finite q => Finite (- q)%Q
  | Inf neg => Inf (negb neg)
  | NaN => NaN
  end.

Definition fmul (x y : pyfloat) : pyfloat :=
  match x, y with
  | NaN, _ | _, NaN => NaN
  | Finite a, Finite b => round64 (a * b)
  | Inf n, Finite b | Finite b, Inf n =>
      if Qeq_bool b 0 then NaN else Inf (xorb n (Qneg_bool b))
  | Inf n1, Inf n2 => Inf (xorb n1 n2)
  end.

Definition fadd (x y : pyfloat) : pyfloat :=
  match x, y with
  | NaN, _ | _, NaN => NaN
  | Finite a, Finite b => round64 (a + b)
  | Inf n, Finite _ | Finite _, Inf n => Inf n
  | Inf n1, Inf n2 => if Bool.eqb n1 n2 then Inf n1 else NaN
  end.

Definition fsub (x y : pyfloat) : pyfloat := fadd x (fneg y).

Definition fdiv (x y : pyfloat) : pyfloat :=
  match x, y with
  | NaN, _ | _, NaN => NaN
  | Finite a, Finite b =>
      if Qeq_bool b 0
      then if Qeq_bool a 0 then NaN else Inf (Qneg_bool a)
      else round64 (a / b)
  | Inf n, Finite b => Inf (xorb n (Qneg_bool b))
  | Finite _, Inf _ => Finite 0
  | Inf _, Inf _ => NaN
  end.

(** Integer part, rounding toward zero. *)
Definition Qtrunc (q : Q) : Z :=
  if Qle_bool 0 q then Qfloor q else Qceiling q.

(** C [fmod]: the exact remainder, with the sign of the dividend. *)
Definition fmod (x y : pyfloat) : pyfloat :=
  match x, y with
  | NaN, _ | _, NaN | Inf _, _ => NaN
  | Finite a, Inf _ => Finite a
  | Finite a, Finite b =>
      if Qeq_bool b 0 then NaN
      else Finite (a - b * inject_Z (Qtrunc (a / b)))
  end.

Definition ffloor (x : pyfloat) : pyfloat :=
  match x with
  | Finite q => Finite (inject_Z (Qfloor q))
  | _ => x
  end.

(** [divmod(vx, wx)] on floats, after CPython's [float_divmod]. *)
Definition float_divmod (vx wx : pyfloat) : result (pyfloat * pyfloat) :=
  if is_zero wx then Raise (Exn ZeroDivisionError "float divmod()")
  else
    let mod0 := fmod vx wx in
    let div0 := fdiv (fsub vx mod0) wx in
    let '(mod1, div1) :=
      if truthy mod0
      then if xorb (flt wx (Finite 0)) (flt mod0 (Finite 0))
           then (fadd mod0 wx, fsub div0 (Finite 1))
           else (mod0, div0)
      else (Finite 0, div0) in
    let floordiv :=
      if truthy div1
      then let fl := ffloor div1 in
           if flt (Finite (1 # 2)) (fsub div1 fl) then fadd fl (Finite 1) else fl
      else Finite 0 in
    Ok (floordiv, mod1).

(** [int(x)] truncates toward zero and raises on NaN and infinities. *)
Definition py_int (x : pyfloat) : result Z :=
  match x with
  | Finite q => Ok (Qtrunc q)
  | Inf _ => Raise (Exn OverflowError "cannot convert float infinity to integer")
  | NaN => Raise (Exn ValueError "cannot convert float NaN to integer")
  end.

End F64.
Export F64.

(** ** Coordinate converter *)

Module Geo.

Definition DMS : Type := Z * Z * Z.
Definition Coordinate : Type := DMS * DMS.

Definition decimal_to_dms (decimal : pyfloat) : result DMS :=
  let negative := flt decimal (Finite 0) in
  let decimal := fabs decimal in
  '(minutes, seconds) ← float_divmod (fmul decimal (of_Z 3600)) (of_Z 60);
  '(degrees, minutes) ← float_divmod minutes (of_Z 60);
  let '(degrees, minutes, seconds) :=
     if negative
     then if flt (Finite 0) degrees then (fneg degrees, minutes, seconds)
          else if flt (Finite 0) minutes then (degrees, fneg minutes, seconds)
          else (degrees, minutes, fneg seconds)
     else (degrees, minutes, seconds) in
  d ← py_int degrees;
  m ← py_int minutes;
  s ← py_int seconds;
  Ok (d, m, s).

(** *** [float(str)]

    The built-in first turns the string into ASCII: a string that is
    ASCII already is taken as it is; in any other string the white space
    from code point 127 on becomes a blank, the decimal digits of the
    other scripts become ASCII digits, and the rest is cut at the first
    character that is neither.  It then accepts, after stripping the C
    white space, an optional sign followed by [inf], [infinity], [nan]
    (in any case) or a decimal number with an optional exponent; single
    underscores may separate digits.  The decimal value is rounded to
    the nearest binary64. *)

(** A Python string: its code points. *)
Definition text : Type := list N.

Definition text_of (s : string) : text := map N_of_ascii (list_ascii_of_string s).

(** What the Unicode database of the interpreter says of a character:
    whether it is white space, and its value as a decimal digit. *)
Class Unicode := {
  is_unicode_space : N -> bool;
  to_decimal : N -> option N
}.

Definition is_ascii (s : text) : bool := forallb (fun c => (c <? 128)%N) s.

Section Transform.
Context `{Unicode}.

Fixpoint transform (s : text) : string :=
  match s with
  | [] => EmptyString
  | c :: s' =>
      if (c <? 127)%N then String (ascii_of_N c) (transform s')
      else if is_unicode_space c then String " " (transform s')
      else match to_decimal c with
           | Some d => String (ascii_of_N (48 + d mod 10)) (transform s')
           | None => "?"
           end
  end.

Definition ascii_form (s : text) : string :=
  if is_ascii s then string_of_list_ascii (map ascii_of_N s) else transform s.

End Transform.

(** The C white space: tab to carriage return, and the blank. *)
Definition is_space (c : ascii) : bool :=
  let n := nat_of_ascii c in
  ((9 <=? n) && (n <=? 13) || (n =? 32))%nat.

Definition is_digit (c : ascii) : bool :=
  let n := nat_of_ascii c in ((48 <=? n) && (n <=? 57))%nat.

Definition digit_val (c : ascii) : Z := Z.of_nat (nat_of_ascii c) - 48.

Fixpoint lstrip (s : string) : string :=
  match s with
  | String c s' => if is_space c then lstrip s' else s
  | EmptyString => EmptyString
  end.

Definition strip (s : string) : string :=
  String.rev (lstrip (String.rev (lstrip s))).

Definition lower_ascii (c : ascii) : ascii :=
  let n := nat_of_ascii c in
  if ((65 <=? n) && (n <=? 90))%nat then ascii_of_nat (n + 32) else c.

Fixpoint lower (s : string) : string :=
  match s with
  | String c s' => String (lower_ascii c) (lower s')
  | EmptyString => EmptyString
  end.

(** The rest of a digit part whose first digit has been read: value so
    far, number of digits so far, input left. *)
Fixpoint digits (acc : Z) (n : nat) (s : string) : Z * nat * string :=
  match s with
  | String c s' =>
      if is_digit c then digits (10 * acc + digit_val c) (S n) s'
      else if Ascii.eqb c "_" then
        match s' with
        | String c' s'' =>
            if is_digit c' then digits (10 * acc + digit_val c') (S n) s''
            else (acc, n, s)
        | EmptyString => (acc, n, s)
        end
      else (acc, n, s)
  | EmptyString => (acc, n, s)
  end.

Definition digitpart (s : string) : option (Z * nat * string) :=
  match s with
  | String c s' => if is_digit c then Some (digits (digit_val c) 1 s') else None
  | EmptyString => None
  end.

(** An optional exponent; [None] when an exponent marker is not followed
    by digits. *)
Definition exponent (s : string) : option (Z * string) :=
  match s with
  | String c s' =>
      if Ascii.eqb c "e" || Ascii.eqb c "E" then
        let '(neg, s'') :=
          match s' with
          | String "+" r => (false, r)
          | String "-" r => (true, r)
          | _ => (false, s')
          end in
        match digitpart s'' with
        | Some (v, _, rest) => Some (if neg then - v else v, rest)
        | None => None
        end
      else Some (0, s)
  | EmptyString => Some (0, s)
  end.

Definition floatnumber_end (ip fp : Z) (fl : nat) (rest : string) : option Q :=
  match exponent rest with
  | Some (e, EmptyString) =>
      Some (inject_Z (ip * 10 ^ Z.of_nat fl + fp) * Qpower 10 (e - Z.of_nat fl))%Q
  | _ => None
  end.

Definition floatnumber (s : string) : option Q :=
  match digitpart s with
  | Some (ip, _, rest) =>
      match rest with
      | String "." rest' =>
          match digitpart rest' with
          | Some (fp, fl, rest'') => floatnumber_end ip fp fl rest''
          | None => floatnumber_end ip 0 0 rest'
          end
      | _ => floatnumber_end ip 0 0 rest
      end
  | None =>
      match s with
      | String "." rest' =>
          match digitpart rest' with
          | Some (fp, fl, rest'') => floatnumber_end 0 fp fl rest''
          | None => None
          end
      | _ => None
      end
  end.

(** The parser, on the ASCII form. *)
Definition float_from_string (s : string) : result pyfloat :=
  let s := strip s in
  let '(neg, body) :=
    match s with
    | String "+" r => (false, r)
    | String "-" r => (true, r)
    | _ => (false, s)
    end in
  let word := lower body in
  if String.eqb word "inf" || String.eqb word "infinity" then Ok (Inf neg)
  else if String.eqb word "nan" then Ok NaN
  else match floatnumber body with
       | Some q => Ok (round64 (if neg then - q else q)%Q)
       | None => Raise (Exn ValueError "could not convert string to float")
       end.

(** [float(s)] *)
Definition py_float `{Unicode} (s : text) : result pyfloat :=
  float_from_string (ascii_form s).

(** [s.split(sep)] for a one-character separator. *)
Fixpoint text_split (sep : N) (s : text) : list text :=
  match s with
  | [] => [[]]
  | c :: s' =>
      if (c =? sep)%N then [] :: text_split sep s'
      else match text_split sep s' with
           | h :: t => (c :: h) :: t
           | [] => [[c]]
           end
  end.

(** The same on the strings of the paths. *)
Fixpoint str_split (sep : ascii) (s : string) : list string :=
  match s with
  | EmptyString => [EmptyString]
  | String c s' =>
      if Ascii.eqb c sep then EmptyString :: str_split sep s'
      else match str_split sep s' with
           | h :: t => String c h :: t
           | [] => [String c EmptyString]
           end
  end.

(** The comma, as a code point. *)
Definition comma : N := 44.

Fixpoint has_char (c : ascii) (s : string) : bool :=
  match s with
  | String c' s' => Ascii.eqb c' c || has_char c s'
  | EmptyString => false
  end.

Definition lat_long_decimal_to_dms `{Unicode} (coord : text) : result Coordinate :=
  match text_split comma coord with
  | [N; W] =>
      n ← py_float N;
      lat ← decimal_to_dms n;
      w ← py_float W;
      long ← decimal_to_dms w;
      Ok (lat, long)
  | [] | [_] => Raise (Exn ValueError "not enough values to unpack")
  | _ => Raise (Exn ValueError "too many values to unpack")
  end.

(** *** Vocabulary of the stated properties *)

(** The inverse reconstruction: degrees + minutes/60 + seconds/3600 on
    the magnitudes, negative when a component carries the sign. *)
Definition dms_to_decimal (t : DMS) : Q :=
  let '(d, m, s) := t in
  let magnitude :=
    (inject_Z (Z.abs d) + inject_Z (Z.abs m) / 60 + inject_Z (Z.abs s) / 3600)%Q in
  if (d <? 0) || (m <? 0) || (s <? 0) then (- magnitude)%Q else magnitude.

(** The sign sits on the first non-zero component (degrees, else
    minutes, else seconds) and on no other. *)
Definition sign_on_first_nonzero (t : DMS) : bool :=
  let '(d, m, s) := t in
  if negb (d =? 0) then (d <? 0) && (0 <=? m) && (0 <=? s)
  else if negb (m =? 0) then (m <? 0) && (0 <=? s)
  else s <? 0.

(** The triple obtained from a whole number [T] of seconds of arc. *)
Definition seconds_to_dms (negative : bool) (T : Z) : DMS :=
  let D := T / 60 / 60 in
  let M := T / 60 mod 60 in
  let S := T mod 60 in
  if negative
  then if 0 <? D then (- D, M, S)
       else if 0 <? M then (D, - M, S)
       else (D, M, - S)
  else (D, M, S).

End Geo.
Export Geo.

(** ** Downloader *)

Module Dl.

Definition bytes : Type := list Byte.byte.

(** *** Data model *)

Record datetime := Datetime {
  year : Z; month : Z; day : Z; hour : Z; minute : Z; second : Z
}.

Record Photo := {
  id : string;
  title : string;
  url : string;
  capture_date : option datetime
}.

Record Album := {
  album_title : string;
  photos : list Photo
}.

(** *** [pathlib] paths (POSIX flavour) *)

Record Path := { root : string; parts : list string }.

Definition is_part (c : string) : bool :=
  negb (String.eqb c "" || String.eqb c ".").

Definition path_of_str (s : string) : Path :=
  {| root := if String.prefix "///" s then "/"
             else if String.prefix "//" s then "//"
             else if String.prefix "/" s then "/"
             else "";
     parts := filter (fun c => is_part c = true) (str_split "/" s) |}.

(** [p / s] *)
Definition truediv (p : Path) (s : string) : Path :=
  let q := path_of_str s in
  if String.eqb (root q) "" then {| root := root p; parts := parts p ++ parts q |}
  else q.

Fixpoint join (sep : string) (l : list string) : string :=
  match l with
  | [] => ""
  | [x] => x
  | x :: l' => x +:+ sep +:+ join sep l'
  end.

Definition str (p : Path) : string :=
  match root p, parts p with
  | EmptyString, [] => "."
  | r, l => r +:+ join "/" l
  end.

(** The directory a path lies in, unless that is the current directory
    or the root. *)
Definition parent (s : string) : option string :=
  let p := path_of_str s in
  match parts p with
  | [] | [_] => None
  | l => Some (str {| root := root p; parts := removelast l |})
  end.

(** *** String helpers *)

(** [needle in hay] *)
Fixpoint contains (needle hay : string) : bool :=
  String.prefix needle hay ||
  match hay with
  | String _ hay' => contains needle hay'
  | EmptyString => false
  end.

(** [s.replace(a, b)] for single characters. *)
Fixpoint replace_char (a b : ascii) (s : string) : string :=
  match s with
  | String c s' => String (if Ascii.eqb c a then b else c) (replace_char a b s')
  | EmptyString => EmptyString
  end.

(** [s[:-n]] *)
Definition drop_last (n : nat) (s : string) : string :=
  String.substring 0 (String.length s - n) s.

Definition digit_char (z : Z) : ascii := ascii_of_nat (48 + Z.to_nat (z mod 10)).

(** Decimal rendering on [width] digits, zero padded. *)
Fixpoint zero_padded (width : nat) (z : Z) : string :=
  match width with
  | O => ""
  | S w => zero_padded w (z / 10) +:+ String (digit_char z) ""
  end.

(** [iter_content(chunk_size)]: the body cut into chunks. *)
Fixpoint chunks_fuel (fuel chunk_size : nat) (body : bytes) : list bytes :=
  match fuel, body with
  | S fuel', _ :: _ =>
      take chunk_size body :: chunks_fuel fuel' chunk_size (drop chunk_size body)
  | _, _ => []
  end.

Definition iter_content (chunk_size : nat) (body : bytes) : list bytes :=
  chunks_fuel (length body) chunk_size body.

(** *** The world outside the program *)

Inductive node :=
  | Dir
  | File (data : bytes) (mtime : option string).

Inductive log_level := DEBUG | INFO | WARNING | ERROR.

Definition level_no (l : log_level) : Z :=
  match l with DEBUG => 10 | INFO => 20 | WARNING => 30 | ERROR => 40 end.

Record world := World {
  fs : gmap string node;          (* files and directories, by path *)
  gets : list string;             (* URLs requested with GET, oldest first *)
  log : list (log_level * string);(* records of the program's own calls to
                                     [logging] that passed the threshold,
                                     oldest first *)
  level : log_level;              (* threshold of the root logger *)
  uuids : nat                     (* random tokens drawn so far *)
}.

(** What a GET request brings back: the bytes that arrive, and the
    error that ends the stream early, if any. *)
Record response := { content : bytes; broken : option exn }.

Inductive gps_attr :=
  | gps_latitude | gps_latitude_ref | gps_longitude | gps_longitude_ref.

Inductive exif_value :=
  | DmsValue (t : DMS)
  | StrValue (s : string).

(** What the program does not define itself: the two sanitizers of
    [pathvalidate], [uuid.uuid4], the remote server, the [exif] package,
    whether the C library pads the year of [%Y] to four digits, the
    presence of [/usr/bin/touch] and the time stamps that it accepts. *)
Class Env := {
  sanitize_filename : string -> string;
  sanitize_filepath : string -> string;
  uuid4 : nat -> string;
  http_get : string -> result response;
  Image : Type;
  exif_Image : bytes -> result Image;
  exif_setattr : Image -> gps_attr -> exif_value -> result Image;
  exif_get_file : Image -> result bytes;
  pads_year : bool;
  has_touch : bool;
  touch_accepts : string -> bool
}.

(** *** Computations: state passing with exceptions *)

Definition M (A : Type) : Type := world -> result A * world.

#[global] Instance M_ret : MRet M := fun A a w => (Ok a, w).
#[global] Instance M_bind : MBind M := fun A B k m w =>
  match m w with
  | (Ok a, w') => k a w'
  | (Raise e, w') => (Raise e, w')
  end.

Definition lift {A} (r : result A) : M A := fun w => (r, w).

(** [try: body except RuntimeError as err: handler(err)] *)
Definition try_except_RuntimeError (body : M unit) (handler : exn -> M unit) : M unit :=
  fun w =>
    match body w with
    | (Raise e, w') => if is_RuntimeError e then handler e w' else (Raise e, w')
    | r => r
    end.

(** [for x in l: body(x)] *)
Fixpoint for_each {A} (l : list A) (body : A -> M unit) : M unit :=
  match l with
  | [] => mret tt
  | x :: l' => body x ≫= fun _ => for_each l' body
  end.

Definition set_fs (f : gmap string node -> gmap string node) (w : world) : world :=
  {| fs := f (fs w); gets := gets w; log := log w; level := level w; uuids := uuids w |}.

Definition logging (l : log_level) (msg : string) : M unit := fun w =>
  (Ok tt,
   if (level_no (level w) <=? level_no l)%Z
   then {| fs := fs w; gets := gets w; log := log w ++ [(l, msg)];
           level := level w; uuids := uuids w |}
   else w).

Definition setLevel (l : log_level) : M unit := fun w =>
  (Ok tt, {| fs := fs w; gets := gets w; log := log w; level := l; uuids := uuids w |}).

Definition is_dir (p : string) : M bool := fun w =>
  (Ok (match fs w !! p with Some Dir => true | _ => false end), w).

Definition exists_ (p : string) : M bool := fun w =>
  (Ok (match fs w !! p with Some _ => true | None => false end), w).

(** Why nothing can be created at [p]: its directory is missing or is
    not one. *)
Definition parent_error (m : gmap string node) (p : string) : option exn :=
  match parent p with
  | None => None
  | Some q =>
      match m !! q with
      | Some Dir => None
      | Some (File _ _) => Some (Exn NotADirectoryError p)
      | None => Some (Exn FileNotFoundError p)
      end
  end.

(** [p.mkdir(exist_ok=True)] *)
Definition mkdir_exist_ok (p : string) : M unit := fun w =>
  match fs w !! p with
  | Some Dir => (Ok tt, w)
  | Some (File _ _) => (Raise (Exn FileExistsError p), w)
  | None =>
      match parent_error (fs w) p with
      | Some e => (Raise e, w)
      | None => (Ok tt, set_fs <[p := Dir]> w)
      end
  end.

(** Why [p] cannot be opened for writing. *)
Definition open_error (m : gmap string node) (p : string) : option exn :=
  match m !! p with
  | Some Dir => Some (Exn IsADirectoryError p)
  | Some (File _ _) => None
  | None => parent_error m p
  end.

(** [open(p, "wb")]: the file is created or truncated. *)
Definition open_wb (p : string) : M unit := fun w =>
  match open_error (fs w) p with
  | Some e => (Raise e, w)
  | None => (Ok tt, set_fs <[p := File [] None]> w)
  end.

(** [fd.write(chunk)] on the file opened at [p]. *)
Definition write (p : string) (chunk : bytes) : M unit := fun w =>
  match fs w !! p with
  | Some (File data _) => (Ok tt, set_fs <[p := File (data ++ chunk) None]> w)
  | _ => (Raise (Exn OtherError "write to a closed file"), w)
  end.

(** [open(p, "rb")] and reading it whole. *)
Definition read_rb (p : string) : M bytes := fun w =>
  match fs w !! p with
  | Some (File data _) => (Ok data, w)
  | Some Dir => (Raise (Exn IsADirectoryError p), w)
  | None => (Raise (Exn FileNotFoundError p), w)
  end.

Section Program.
Context `{Env}.

Definition requests_get (u : string) : M response := fun w =>
  (http_get u,
   {| fs := fs w; gets := gets w ++ [u]; log := log w; level := level w;
      uuids := uuids w |}).

Definition uuid_uuid4 : M string := fun w =>
  (Ok (uuid4 (uuids w)),
   {| fs := fs w; gets := gets w; log := log w; level := level w;
      uuids := S (uuids w) |}).

(** [d.strftime("%Y%m%d%H%M")] *)
Definition strftime_YmdHM (d : datetime) : string :=
  (if pads_year then zero_padded 4 (year d) else pretty (year d))
  +:+ zero_padded 2 (month d) +:+ zero_padded 2 (day d)
  +:+ zero_padded 2 (hour d) +:+ zero_padded 2 (minute d).

(** [subprocess.run(["/usr/bin/touch", "-mt", stamp, p])]: the exit
    status of the command is not inspected.  The path is passed as it
    is, so one that starts with a dash is read as options and no file
    is left to touch; and a stamp that the command refuses sets no
    date. *)
Definition touch_mt (stamp p : string) : M unit := fun w =>
  if has_touch then
    (Ok tt,
     if String.prefix "-" p || negb (touch_accepts stamp) then w
     else
       match fs w !! p with
       | Some (File data _) => set_fs <[p := File data (Some stamp)]> w
       | Some Dir => w
       | None =>
           match parent_error (fs w) p with
           | Some _ => w
           | None => set_fs <[p := File [] (Some stamp)]> w
           end
       end)
  else (Raise (Exn FileNotFoundError "/usr/bin/touch"), w).

(** The image object after the four assignments of the [try] block. *)
Definition tagged_image (data : bytes) (coordinate : Coordinate) : result Image :=
  image ← exif_Image data;
  image ← exif_setattr image gps_latitude (DmsValue coordinate.1);
  image ← exif_setattr image gps_latitude_ref (StrValue "N");
  image ← exif_setattr image gps_longitude (DmsValue coordinate.2);
  exif_setattr image gps_longitude_ref (StrValue "W").

(** The body of the [try] block that stores the GPS tags. *)
Definition store_exif (filename : string) (coordinate : Coordinate) : M unit :=
  data ← read_rb filename;
  image ← lift (tagged_image data coordinate);
  open_wb filename;;
  out ← lift (exif_get_file image);
  write filename out.

(** The name a photo is written under, from the path that was probed. *)
Definition written_name (filename : string) : M string :=
  let filename :=
    if negb (contains "." filename) then filename +:+ ".jpg" else filename in
  if contains "file.jpg" filename
  then u ← uuid_uuid4; mret (drop_last 8 filename +:+ u +:+ ".jpg")
  else mret filename.

(** Streaming the photo to disk: the chunks that arrive are written one
    by one, and a stream that breaks raises after the last of them. *)
Definition fetch (filename url : string) : M unit :=
  logging INFO ("> Downloading image: " +:+ filename);;
  req ← requests_get url;
  open_wb filename;;
  for_each (iter_content (Z.to_nat 65536) (content req)) (write filename);;
  match broken req with
  | Some e => lift (Raise e)
  | None => mret tt
  end.

(** [if coordinate: try: ... except RuntimeError as err: ...] *)
Definition tag (coordinate : option Coordinate) (filename : string) : M unit :=
  match coordinate with
  | Some c =>
      try_except_RuntimeError (store_exif filename c)
        (fun err => logging WARNING ("Unable to store EXIF data: " +:+ exn_msg err))
  | None => mret tt
  end.

(** Setting the file date to the capture date. *)
Definition stamp (photo : Photo) (filename : string) : M unit :=
  match capture_date photo with
  | Some d => touch_mt (strftime_YmdHM d) filename
  | None => mret tt
  end.

(** One iteration of the inner loop, from the path that is probed. *)
Definition download_file (coordinate : option Coordinate) (filename : string)
    (photo : Photo) : M unit :=
  present ← exists_ filename;
  if present : bool then
    logging DEBUG ("> " +:+ filename +:+ " exists already, so skipping download")
  else
    filename ← written_name filename;
    fetch filename (url photo);;
    tag coordinate filename;;
    stamp photo filename.

(** One iteration of the inner loop. *)
Definition download_photo (coordinate : option Coordinate) (group_path : Path)
    (photo : Photo) : M unit :=
  download_file coordinate
    (str (truediv group_path (sanitize_filename (title photo)))) photo.

Definition download_album (coordinate : option Coordinate) (download_dir : Path)
    (album : Album) : M unit :=
  logging INFO ("Downloading album: " +:+ album_title album);;
  let group_path :=
    truediv download_dir (sanitize_filepath (replace_char "/" " " (album_title album))) in
  mkdir_exist_ok (str group_path);;
  for_each (photos album) (download_photo coordinate group_path).

Definition download_albums (albums : list Album) (download_dir : Path)
    (coordinate : option Coordinate) : M bool :=
  ok ← is_dir (str download_dir);
  if negb ok then
    logging ERROR ("Does not exist or is not a directory: " +:+ str download_dir);;
    mret false
  else
    for_each albums (download_album coordinate download_dir);;
    mret true.

End Program.

End Dl.
Export Dl.

(** ** A sample environment

    Sanitizers that drop the characters [pathvalidate] refuses, a server
    that answers every [https] URL, a toy EXIF library that accepts
    JPEG data only and appends the tags to it, a C library that does
    not pad the year, a [touch] that takes stamps of 8, 10 or 12
    characters, and a Unicode database with the white space and three
    of the scripts that have digits of their own. *)

Module Demo.

#[export] Instance unicode : Unicode := {|
  is_unicode_space := fun c =>
    ((c =? 0x85) || (c =? 0xA0) || (c =? 0x1680)
     || ((0x2000 <=? c) && (c <=? 0x200A))
     || (c =? 0x2028) || (c =? 0x2029) || (c =? 0x202F) || (c =? 0x205F)
     || (c =? 0x3000))%N;
  to_decimal := fun c =>
    (if (0x660 <=? c) && (c <=? 0x669) then Some (c - 0x660)
     else if (0x966 <=? c) && (c <=? 0x96F) then Some (c - 0x966)
     else if (0xFF10 <=? c) && (c <=? 0xFF19) then Some (c - 0xFF10)
     else None)%N
|}.

Definition invalid_in_name (c : ascii) : bool :=
  contains (String c "") "/\:*?<>|".

Fixpoint remove_chars (bad : ascii -> bool) (s : string) : string :=
  match s with
  | String c s' => if bad c then remove_chars bad s' else String c (remove_chars bad s')
  | EmptyString => EmptyString
  end.

Record tagged := { tags : list (gps_attr * exif_value); payload : bytes }.

Definition jpeg (rest : bytes) : bytes := Byte.xff :: Byte.xd8 :: rest.

Definition byte_of_Z (z : Z) : Byte.byte :=
  default Byte.x00 (Byte.of_nat (Z.to_nat (z mod 256))).

Definition encode_tag (t : gps_attr * exif_value) : bytes :=
  match t.2 with
  | DmsValue (d, m, s) => [Byte.xe1; byte_of_Z d; byte_of_Z m; byte_of_Z s]
  | StrValue v => Byte.xe2 :: map byte_of_ascii (list_ascii_of_string v)
  end.

#[export] Instance env : Env := {|
  sanitize_filename := remove_chars invalid_in_name;
  sanitize_filepath := remove_chars (fun c => invalid_in_name c && negb (Ascii.eqb c "/"));
  uuid4 := fun n => "0000-" +:+ zero_padded 4 (Z.of_nat n);
  http_get := fun u =>
    if String.eqb u "https://host/gif"
    then Ok {| content := [Byte.x47; Byte.x49; Byte.x46]; broken := None |}
    else if String.prefix "https://" u
    then Ok {| content := Byte.xff :: Byte.xd8 :: [Byte.x01; Byte.x02; Byte.x03];
               broken := None |}
    else Raise (Exn ConnectionError u);
  Image := tagged;
  exif_Image := fun b =>
    match b with
    | Byte.xff :: Byte.xd8 :: _ => Ok {| tags := []; payload := b |}
    | _ => Raise (Exn RuntimeError "not a JPEG")
    end;
  exif_setattr := fun i a v => Ok {| tags := tags i ++ [(a, v)]; payload := payload i |};
  exif_get_file := fun i => Ok (payload i ++ concat (map encode_tag (tags i)));
  pads_year := false;
  has_touch := true;
  touch_accepts := fun stamp =>
    let n := String.length stamp in ((n =? 8) || (n =? 10) || (n =? 12))%nat
|}.

Definition body : bytes := jpeg [Byte.x01; Byte.x02; Byte.x03].

(** A target directory [d], empty. *)
Definition w0 : world :=
  {| fs := {[ "d" := Dir ]}; gets := []; log := []; level := INFO; uuids := 0 |}.

(** The same with the album directory [d/a] already there. *)
Definition w_album : world := set_fs <[ "d/a" := Dir ]> w0.

(** The same with an older file [d/a/x.jpg]. *)
Definition w_old : world :=
  set_fs <[ "d/a/x.jpg" := File [Byte.x00] (Some "202001010000") ]> w_album.


Definition photo (t : string) : Photo :=
  {| id := "1"; title := t; url := "https://host/1"; capture_date := None |}.

Definition album (ts : list string) : Album :=
  {| album_title := "a"; photos := map photo ts |}.


Definition gif : Photo :=
  {| id := "3"; title := "z.gif"; url := "https://host/gif";
     capture_date := Some (Datetime 2021 3 4 5 6 7) |}.

Definition new_york : Coordinate := ((40, 44, 0), (-74, 0, 11)).

End Demo.

(** ** The fetcher: [_get_albums_data], [_parse_albums], [get_albums] *)

Module Fetch.

(** What [chompjs.parse_js_object] hands back: the Python values of a
    JavaScript object literal.  A dictionary is kept as the list of its
    items; the first item of a key is the binding of that key. *)
#[warnings="-register-all"]
Inductive value :=
  | VNone
  | VBool (b : bool)
  | VInt (z : Z)
  | VFloat (x : pyfloat)
  | VStr (s : string)
  | VList (l : list value)
  | VDict (d : list (string * value)).

Definition type_name (v : value) : string :=
  match v with
  | VNone => "NoneType"
  | VBool _ => "bool"
  | VInt _ => "int"
  | VFloat _ => "float"
  | VStr _ => "str"
  | VList _ => "list"
  | VDict _ => "dict"
  end.

Fixpoint lookup_item (key : string) (d : list (string * value)) : option value :=
  match d with
  | [] => None
  | (k, v) :: d' => if String.eqb k key then Some v else lookup_item key d'
  end.

(** The keys of a dictionary, each once, in the order of their first item. *)
Fixpoint keys (d : list (string * value)) : list string :=
  match d with
  | [] => []
  | (k, _) :: d' => k :: filter (fun k' => k' <> k) (keys d')
  end.

(** [v[key]] for a string [key]. *)
Definition getitem (v : value) (key : string) : result value :=
  match v with
  | VDict d =>
      match lookup_item key d with
      | Some x => Ok x
      | None => Raise (Exn KeyError ("'" +:+ key +:+ "'"))
      end
  | VList _ => Raise (Exn TypeError "list indices must be integers or slices, not str")
  | VStr _ => Raise (Exn TypeError "string indices must be integers, not 'str'")
  | _ => Raise (Exn TypeError ("'" +:+ type_name v +:+ "' object is not subscriptable"))
  end.

(** [for x in v]: the values that the loop visits. *)
Definition iterate (v : value) : result (list value) :=
  match v with
  | VList l => Ok l
  | VDict d => Ok (map VStr (keys d))
  | VStr s => Ok (map (fun c => VStr (String c "")) (list_ascii_of_string s))
  | _ => Raise (Exn TypeError ("'" +:+ type_name v +:+ "' object is not iterable"))
  end.

(** [bool(v)] *)
Definition truth (v : value) : bool :=
  match v with
  | VNone => false
  | VBool b => b
  | VInt z => negb (z =? 0)
  | VFloat x => truthy x
  | VStr s => negb (String.eqb s "")
  | VList l => match l with [] => false | _ => true end
  | VDict d => match d with [] => false | _ => true end
  end.

(** One POST request: the [ShrAuth] cookie, the URL and the form. *)
Record request := {
  cookie : string;
  target : string;
  form : list (string * value)
}.

(** The photos and albums as the fetcher builds them: the identifier
    and the titles are whatever values the server sent. *)
Record photo := {
  photo_id : value;
  photo_title : value;
  photo_url : string;
  photo_capture_date : option datetime
}.

Record album := {
  title : value;
  photos : list photo
}.

(** What the fetcher does not define itself: the server's answer to
    the [n]-th POST request, [chompjs], the local time of a number of
    seconds since the epoch, and [str] of floats and containers. *)
Class Remote := {
  http_post : nat -> request -> result string;
  parse_js_object : string -> result value;
  localtime : Q -> result datetime;
  repr : value -> string
}.

(** The program's surroundings, with the POST requests made so far,
    oldest first. *)
Record session := { local : world; posts : list request }.

Definition F (A : Type) : Type := session -> result A * session.

#[global] Instance F_ret : MRet F := fun A a s => (Ok a, s).
#[global] Instance F_bind : MBind F := fun A B k m s =>
  match m s with
  | (Ok a, s') => k a s'
  | (Raise e, s') => (Raise e, s')
  end.

Definition pure {A} (r : result A) : F A := fun s => (r, s).

(** A step of the downloader's world, within a session. *)
Definition on_local {A} (m : M A) : F A := fun s =>
  let (r, w) := m (local s) in (r, {| local := w; posts := posts s |}).

(** The list that a loop builds with [append]. *)
Fixpoint collect_result {A B} (l : list A) (body : A -> result B) : result (list B) :=
  match l with
  | [] => Ok []
  | x :: l' => y ← body x; ys ← collect_result l' body; Ok (y :: ys)
  end.

Fixpoint collect {A B} (l : list A) (body : A -> F B) : F (list B) :=
  match l with
  | [] => mret []
  | x :: l' => y ← body x; ys ← collect l' body; mret (y :: ys)
  end.

Section Program.
Context `{Remote}.

(** [session.post(url, data=body).text] *)
Definition session_post (token url : string) (body : list (string * value)) : F string :=
  fun s =>
    let r := {| cookie := token; target := url; form := body |} in
    (http_post (length (posts s)) r,
     {| local := local s; posts := posts s ++ [r] |}).

(** [datetime.fromtimestamp(v)] *)
Definition fromtimestamp (v : value) : result datetime :=
  match v with
  | VBool b => localtime (inject_Z (if b then 1 else 0))
  | VInt z => localtime (inject_Z z)
  | VFloat (Finite q) => localtime q
  | VFloat (Inf _) => Raise (Exn OverflowError "cannot convert float infinity to integer")
  | VFloat NaN => Raise (Exn ValueError "Invalid value NaN (not a number)")
  | _ => Raise (Exn TypeError
                  ("'" +:+ type_name v +:+ "' object cannot be interpreted as an integer"))
  end.

(** [f"{v}"] *)
Definition format (v : value) : string :=
  match v with
  | VStr s => s
  | VNone => "None"
  | VBool b => if b then "True" else "False"
  | VInt z => pretty z
  | _ => repr v
  end.

Definition endpoint (site : string) : string :=
  "https://cmd.shutterfly.com/commands/pictures/getitems?site=" +:+ site.

Definition post_body (site : string) (nodeId : value) (layout : string)
    : list (string * value) :=
  [ ("startIndex", VStr "0");
    ("size", VStr "-1");
    ("pageSize", VStr "-1");
    ("page", VStr (site +:+ "/pictures"));
    ("nodeId", nodeId);
    ("format", VStr "json");
    ("layout", VStr layout) ].

Definition _get_albums_data (token site : string) : F value :=
  text ← session_post token (endpoint site)
           (post_body site (VStr "5") "ManagementAlbums");
  on_local (logging DEBUG ("Response: " +:+ text));;
  pure (parse_js_object text).

(** The body of the loop over the items of an album. *)
Definition parse_item (item : value) : result photo :=
  id ← getitem item "shutterflyId";
  stamp ← getitem item "captureDate";
  capture_date ←
    (if truth stamp
     then stamp ← getitem item "captureDate"; d ← fromtimestamp stamp; Ok (Some d)
     else Ok None);
  title ← getitem item "title";
  Ok {| photo_id := id;
        photo_title := title;
        photo_url := "https://uniim-share.shutterfly.com/v2/procgtaserv/" +:+ format id;
        photo_capture_date := capture_date |}.

(** The body of the loop over the groups. *)
Definition parse_group (token site : string) (group : value) : F album :=
  title ← pure (getitem group "title");
  nodeId ← pure (getitem group "nodeId");
  text ← session_post token (endpoint site)
           (post_body site nodeId "ManagementAlbumPictures");
  data ← pure (parse_js_object text);
  items ← pure (r ← getitem data "result"; s ← getitem r "section"; getitem s "items");
  items ← pure (iterate items);
  photos ← pure (collect_result items parse_item);
  mret {| title := title; photos := photos |}.

Definition _parse_albums (albums_data : value) (token site : string) : F (list album) :=
  groups ←
    pure (r ← getitem albums_data "result"; s ← getitem r "section"; getitem s "groups");
  groups ← pure (iterate groups);
  collect groups (parse_group token site).

Definition get_albums (token site : string) : F (list album) :=
  albums_data ← _get_albums_data token site;
  _parse_albums albums_data token site.

(** *** Vocabulary of the statements *)

(** The request that lists the albums, and the one that lists the
    pictures of the album with a given node identifier. *)
Definition listing_request (token site : string) : request :=
  {| cookie := token; target := endpoint site;
     form := post_body site (VStr "5") "ManagementAlbums" |}.

Definition album_request (token site : string) (nodeId : value) : request :=
  {| cookie := token; target := endpoint site;
     form := post_body site nodeId "ManagementAlbumPictures" |}.

(** The values that the two loops visit. *)
Definition groups_of (albums_data : value) : result (list value) :=
  r ← getitem albums_data "result"; s ← getitem r "section";
  groups ← getitem s "groups"; iterate groups.

Definition items_of (data : value) : result (list value) :=
  r ← getitem data "result"; s ← getitem r "section";
  items ← getitem s "items"; iterate items.

Definition image_url (id : value) : string :=
  "https://uniim-share.shutterfly.com/v2/procgtaserv/" +:+ format id.

(** A photo as built from an item. *)
Definition photo_of_item (item : value) (p : photo) : Prop :=
  getitem item "shutterflyId" = Ok (photo_id p)
  /\ getitem item "title" = Ok (photo_title p)
  /\ photo_url p = image_url (photo_id p)
  /\ exists stamp,
       getitem item "captureDate" = Ok stamp
       /\ match photo_capture_date p with
          | None => truth stamp = false
          | Some d => truth stamp = true /\ fromtimestamp stamp = Ok d
          end.

End Program.

End Fetch.

(** ** The entry point

    [main] hands to [download_albums] what [get_albums] returned: the
    titles are the values that the server sent, strings or not.  The
    loops are those of [Dl], on these values. *)

Module Cli.

(** [pathvalidate.sanitize_filename] on a value that is not a string. *)
Class Loose := {
  sanitize_other : Fetch.value -> result string
}.

(** The parsed command line. *)
Record Args := {
  token : string;
  site : string;
  directory : string;
  geo : option text;
  verbose : bool
}.

Section Program.
Context `{Unicode} `{Env} `{Fetch.Remote} `{Loose}.

(** [v.replace("/", " ")] *)
Definition replace_slash (v : Fetch.value) : result string :=
  match v with
  | Fetch.VStr s => Ok (replace_char "/" " " s)
  | _ => Raise (Exn AttributeError
                  ("'" +:+ Fetch.type_name v +:+ "' object has no attribute 'replace'"))
  end.

(** [sanitize_filename(v)] *)
Definition sanitize_title (v : Fetch.value) : result string :=
  match v with
  | Fetch.VStr s => Ok (sanitize_filename s)
  | _ => sanitize_other v
  end.

(** The photo as the inner loop reads it: the URL and the capture date. *)
Definition as_photo (p : Fetch.photo) : Photo :=
  {| id := Fetch.format (Fetch.photo_id p);
     title := Fetch.format (Fetch.photo_title p);
     url := Fetch.photo_url p;
     capture_date := Fetch.photo_capture_date p |}.

Definition download_photo_any (coordinate : option Coordinate) (group_path : Path)
    (photo : Fetch.photo) : M unit :=
  name ← lift (sanitize_title (Fetch.photo_title photo));
  download_file coordinate (str (truediv group_path name)) (as_photo photo).

Definition download_album_any (coordinate : option Coordinate) (download_dir : Path)
    (album : Fetch.album) : M unit :=
  logging INFO ("Downloading album: " +:+ Fetch.format (Fetch.title album));;
  title ← lift (replace_slash (Fetch.title album));
  let group_path := truediv download_dir (sanitize_filepath title) in
  mkdir_exist_ok (str group_path);;
  for_each (Fetch.photos album) (download_photo_any coordinate group_path).

Definition download_albums_any (albums : list Fetch.album) (download_dir : Path)
    (coordinate : option Coordinate) : M bool :=
  ok ← is_dir (str download_dir);
  if negb ok then
    logging ERROR ("Does not exist or is not a directory: " +:+ str download_dir);;
    mret false
  else
    for_each albums (download_album_any coordinate download_dir);;
    mret true.

Definition main (args : Args) : Fetch.F Z :=
  Fetch.on_local (setLevel INFO);;
  (if verbose args then Fetch.on_local (setLevel DEBUG) else mret tt);;
  albums ← Fetch.get_albums (token args) (site args);
  coordinate ←
    match geo args with
    | Some g =>
        match g with
        | [] => mret None
        | _ => c ← Fetch.pure (lat_long_decimal_to_dms g); mret (Some c)
        end
    | None => mret None
    end;
  success ← Fetch.on_local
              (download_albums_any albums (path_of_str (directory args)) coordinate);
  mret (if success : bool then 0 else 1).

(** Running the file as a script: the guard calls [main()] and drops
    what it returns; the interpreter exits with 0 unless an exception
    escaped, in which case it exits with 1. *)
Definition run_script (args : Args) (s : Fetch.session) : Z * Fetch.session :=
  match main args s with
  | (Ok _, s') => (0, s')
  | (Raise _, s') => (1, s')
  end.

(** *** Vocabulary of the statements *)

(** The albums and photos of the declared types, as the values that
    carry them. *)
Definition of_photo (p : Photo) : Fetch.photo :=
  {| Fetch.photo_id := Fetch.VStr (id p);
     Fetch.photo_title := Fetch.VStr (title p);
     Fetch.photo_url := url p;
     Fetch.photo_capture_date := capture_date p |}.

Definition of_album (a : Album) : Fetch.album :=
  {| Fetch.title := Fetch.VStr (album_title a);
     Fetch.photos := map of_photo (photos a) |}.

End Program.

End Cli.
Export Cli.

(** ** A sample server

    A site with two albums, [Summer] with two pictures and [Winter] with
    none, a parser that knows the three answers of that server, and
    clocks set to UTC. *)

Module FetchDemo.
Import Fetch.

(** The date of a number of days since 1970-01-01. *)
Definition civil (days : Z) : Z * Z * Z :=
  let z := days + 719468 in
  let era := z / 146097 in
  let doe := z - era * 146097 in
  let yoe := (doe - doe / 1460 + doe / 36524 - doe / 146096) / 365 in
  let doy := doe - (365 * yoe + yoe / 4 - yoe / 100) in
  let mp := (5 * doy + 2) / 153 in
  let d := doy - (153 * mp + 2) / 5 + 1 in
  let m := if mp <? 10 then mp + 3 else mp - 9 in
  (if m <=? 2 then yoe + era * 400 + 1 else yoe + era * 400, m, d).

Definition utc (q : Q) : result datetime :=
  let t := Qfloor q in
  let '(y, m, d) := civil (t / 86400) in
  let s := t mod 86400 in
  Ok (Datetime y m d (s / 3600) (s / 60 mod 60) (s mod 60)).

Definition listing_text : string :=
  "{result:{section:{groups:[{title:'Summer',nodeId:7},{title:'Winter',nodeId:'n8'}]}}}".

Definition listing : value :=
  VDict [("result", VDict [("section", VDict [("groups", VList [
    VDict [("title", VStr "Summer"); ("nodeId", VInt 7)];
    VDict [("title", VStr "Winter"); ("nodeId", VStr "n8")] ])])])].

Definition summer_text : string :=
  "{result:{section:{items:[{shutterflyId:'p1',title:'beach.jpg',captureDate:1600000000},{shutterflyId:'p2',title:'',captureDate:0}]}}}".

Definition summer : value :=
  VDict [("result", VDict [("section", VDict [("items", VList [
    VDict [("shutterflyId", VStr "p1"); ("title", VStr "beach.jpg");
           ("captureDate", VInt 1600000000)];
    VDict [("shutterflyId", VStr "p2"); ("title", VStr "");
           ("captureDate", VInt 0)] ])])])].

Definition winter_text : string := "{result:{section:{items:[]}}}".

Definition winter : value :=
  VDict [("result", VDict [("section", VDict [("items", VList [])])])].

#[export] Instance remote : Remote := {|
  http_post := fun _ r =>
    if String.eqb (cookie r) "" then Raise (Exn ConnectionError "403")
    else match lookup_item "nodeId" (form r) with
         | Some (VStr n) =>
             if String.eqb n "5" then Ok listing_text
             else if String.eqb n "n8" then Ok winter_text
             else Ok "{}"
         | Some (VInt 7) => Ok summer_text
         | _ => Ok "{}"
         end;
  parse_js_object := fun text =>
    if String.eqb text listing_text then Ok listing
    else if String.eqb text summer_text then Ok summer
    else if String.eqb text winter_text then Ok winter
    else if String.eqb text "{}" then Ok (VDict [])
    else Raise (Exn ValueError "Parser error");
  localtime := utc;
  repr := fun _ => "?"
|}.

#[export] Instance loose : Cli.Loose := {|
  Cli.sanitize_other := fun v =>
    match v with
    | VNone => Ok ""
    | _ => Raise (Exn TypeError "text must be a string")
    end
|}.

Definition s0 : session := {| local := Demo.w0; posts := [] |}.

Definition args_missing : Args :=
  {| token := "t"; site := "s"; directory := "missing"; geo := None;
     verbose := false |}.

(** The same with [--verbose], and a run with a [--geo] value that holds
    no comma. *)
Definition args_verbose : Args :=
  {| token := "t"; site := "s"; directory := "missing"; geo := None;
     verbose := true |}.

Definition args_bad_geo : Args :=
  {| token := "t"; site := "s"; directory := "d"; geo := Some (text_of "abc");
     verbose := true |}.

(** The albums of the sample site. *)
Definition albums : list album :=
  [ {| title := VStr "Summer";
       photos :=
         [ {| photo_id := VStr "p1"; photo_title := VStr "beach.jpg";
              photo_url := "https://uniim-share.shutterfly.com/v2/procgtaserv/p1";
              photo_capture_date := Some (Datetime 2020 9 13 12 26 40) |};
           {| photo_id := VStr "p2"; photo_title := VStr "";
              photo_url := "https://uniim-share.shutterfly.com/v2/procgtaserv/p2";
              photo_capture_date := None |} ] |};
    {| title := VStr "Winter"; photos := [] |} ].

End FetchDemo.

(** Two EXIF libraries that refuse in other ways: one refuses what is
    not a JPEG with a [ValueError]; the other takes the image and the
    tags, and refuses with a [RuntimeError] when asked for the bytes. *)

Module Strict.


Definition late_env : Env := {|
  sanitize_filename := @sanitize_filename Demo.env;
  sanitize_filepath := @sanitize_filepath Demo.env;
  uuid4 := @uuid4 Demo.env;
  http_get := @http_get Demo.env;
  Image := @Image Demo.env;
  exif_Image := @exif_Image Demo.env;
  exif_setattr := @exif_setattr Demo.env;
  exif_get_file := fun _ => Raise (Exn RuntimeError "cannot pack the tags");
  pads_year := false;
  has_touch := true;
  touch_accepts := @touch_accepts Demo.env
|}.

End Strict.

(** A server whose streams break after three bytes. *)

Module Flaky.

Definition flaky_env : Env := {|
  sanitize_filename := @sanitize_filename Demo.env;
  sanitize_filepath := @sanitize_filepath Demo.env;
  uuid4 := @uuid4 Demo.env;
  http_get := fun u =>
    Ok {| content := [Byte.xff; Byte.xd8; Byte.x01];
          broken := Some (Exn ConnectionError "Connection broken") |};
  Image := @Image Demo.env;
  exif_Image := @exif_Image Demo.env;
  exif_setattr := @exif_setattr Demo.env;
  exif_get_file := @exif_get_file Demo.env;
  pads_year := false;
  has_touch := true;
  touch_accepts := @touch_accepts Demo.env
|}.

End Flaky.

(** ** Relations between the world before and after a run *)

Module Frames.

(** A relation holds of a computation when it relates the world before
    each of its runs to the world after, whether the run returns or
    raises. *)
Definition keeps {A} (R : world -> world -> Prop) (m : M A) : Prop :=
  forall w, R w (m w).2.

(** No path is removed, and none turns from a directory into a file or
    from a file into a directory. *)
Definition kinds_kept (w w' : world) : Prop :=
  forall p,
    match fs w !! p with
    | Some Dir => fs w' !! p = Some Dir
    | Some (File _ _) => exists data mt, fs w' !! p = Some (File data mt)
    | None => True
    end.

(** Only the path [name] may have changed. *)
Definition same_but (name : string) (w w' : world) : Prop :=
  forall p, p <> name -> fs w' !! p = fs w !! p.

(** No request was made and no token drawn. *)
Definition offline (w w' : world) : Prop :=
  gets w' = gets w /\ uuids w' = uuids w.

(** The path probed for a photo, and the directory of an album. *)
Definition probed `{Env} (group_path : Path) (photo : Photo) : string :=
  str (truediv group_path (sanitize_filename (title photo))).

Definition album_dir `{Env} (download_dir : Path) (album : Album) : string :=
  str (truediv download_dir
         (sanitize_filepath (replace_char "/" " " (album_title album)))).

(** What [fetch] does with the response: the chunks are written, then
    a broken stream raises. *)
Definition save (name : string) (req : response) : M unit :=
  open_wb name;;
  for_each (iter_content (Z.to_nat 65536) (content req)) (write name);;
  match broken req with
  | Some e => lift (Raise e)
  | None => mret tt
  end.

(** The world once [u] has been requested. *)
Definition requested (u : string) (w : world) : world :=
  {| fs := fs w; gets := gets w ++ [u]; log := log w; level := level w;
     uuids := uuids w |}.

(** The URLs of the photos of a list of albums, in the order of the
    loops. *)
Definition urls (albums : list Album) : list string :=
  concat (map (fun album => map url (photos album)) albums).

(** The magnitudes of the components of a triple. *)
Definition magnitudes (t : DMS) : DMS :=
  let '(d, m, s) := t in (Z.abs d, Z.abs m, Z.abs s).

Definition map_result {A B} (f : A -> B) (r : result A) : result B :=
  match r with
  | Ok a => Ok (f a)
  | Raise e => Raise e
  end.

(** The three conversions at the end of [decimal_to_dms]. *)
Definition ints (degrees minutes seconds : pyfloat) : result DMS :=
  d ← py_int degrees; m ← py_int minutes; s ← py_int seconds; Ok (d, m, s).

(** The coordinate that [main] passes on, from the [--geo] option. *)
Definition parse_geo `{Unicode} (g : option text) : result (option Coordinate) :=
  match g with
  | Some [] | None => Ok None
  | Some g => c ← lat_long_decimal_to_dms g; Ok (Some c)
  end.

(** The session once [main] has set up the logger. *)
Definition configured (verbose : bool) (s : Fetch.session) : Fetch.session :=
  {| Fetch.local :=
       {| fs := fs (Fetch.local s); gets := gets (Fetch.local s);
          log := log (Fetch.local s);
          level := if verbose then DEBUG else INFO;
          uuids := uuids (Fetch.local s) |};
     Fetch.posts := Fetch.posts s |}.

(** The records that a logger of threshold [l] lets through. *)
Definition emitted (l : log_level) (records : list (log_level * string))
    : list (log_level * string) :=
  List.filter (fun r => level_no l <=? level_no r.1) records.

(** The modification time that the last step of an iteration leaves on
    the file [name], for a photo of capture date [d]. *)
Definition stamped `{Env} (name : string) (d : option datetime) : option string :=
  match d with
  | Some d =>
      if String.prefix "-" name || negb (touch_accepts (strftime_YmdHM d)) then None
      else Some (strftime_YmdHM d)
  | None => None
  end.

End Frames.

(** ** Rounding to binary64 *)

Module F64Facts.
Local Open Scope Q_scope.

Lemma pow2_pos e : 0 < pow2 e.
Proof. apply Qpower_0_lt. reflexivity. Qed.

Lemma pow2_le a b : (a <= b)%Z -> pow2 a <= pow2 b.
Proof. intros H. apply Qpower_le_compat_l; [exact H | discriminate]. Qed.

Lemma pow2_lt_inv a b : pow2 a < pow2 b -> (a < b)%Z.
Proof. intros H. apply (Qpower_lt_compat_l_inv 2); [exact H | reflexivity]. Qed.

Lemma pow2_plus a b : pow2 (a + b) == pow2 a * pow2 b.
Proof. apply Qpower_plus. discriminate. Qed.

Lemma pow2_nonneg_Z n : (0 <= n)%Z -> pow2 n == inject_Z (2 ^ n).
Proof. intros H. unfold pow2. rewrite Zpower_Qpower by exact H. reflexivity. Qed.

(** Integers lie between the neighbours of a rounded rational. *)
Lemma round_half_even_le q n : q <= inject_Z n -> (round_half_even q <= n)%Z.
Proof.
  intros H. unfold round_half_even.
  pose proof (Qfloor_le q) as Hf. pose proof (Qlt_floor q) as Hl.
  assert (Hfn : (Qfloor q <= n)%Z).
  { rewrite <- (Qfloor_Z n). apply Qfloor_resp_le. exact H. }
  destruct (Qcompare_spec (q - inject_Z (Qfloor q)) (1 # 2)) as [E|E|E].
  - destruct (Z.even (Qfloor q)); [lia|].
    destruct (Z.eq_dec (Qfloor q) n) as [En|]; [|lia].
    exfalso. rewrite En in E. lra.
  - lia.
  - destruct (Z.eq_dec (Qfloor q) n) as [En|]; [|lia].
    exfalso. rewrite En in E. lra.
Qed.

Lemma round_half_even_ge q n : inject_Z n <= q -> (n <= round_half_even q)%Z.
Proof.
  intros H. unfold round_half_even.
  assert (Hfn : (n <= Qfloor q)%Z).
  { rewrite <- (Qfloor_Z n). apply Qfloor_resp_le. exact H. }
  destruct (Qcompare (q - inject_Z (Qfloor q)) (1 # 2));
    [destruct (Z.even (Qfloor q))| |]; lia.
Qed.

Lemma round_half_even_Z n : round_half_even (inject_Z n) = n.
Proof.
  apply Z.le_antisymm.
  - apply round_half_even_le. apply Qle_refl.
  - apply round_half_even_ge. apply Qle_refl.
Qed.

(** [ilog2] never overshoots. *)
Lemma ilog2_upper q e : 0 < q -> q < pow2 (e + 1) -> (ilog2 q <= e)%Z.
Proof.
  intros Hq Hlt. unfold ilog2.
  destruct q as [n d]. cbn [Qnum Qden].
  assert (Hn : (0 < n)%Z) by (unfold Qlt in Hq; cbn in Hq; lia).
  set (a := Z.log2 n). set (b := Z.log2 (Z.pos d)).
  assert (Ha : (2 ^ a <= n)%Z) by (apply Z.log2_spec; exact Hn).
  assert (Hb : (Z.pos d < 2 ^ (b + 1))%Z).
  { replace (b + 1)%Z with (Z.succ b) by lia. apply Z.log2_spec. lia. }
  assert (Ha0 : (0 <= a)%Z) by apply Z.log2_nonneg.
  assert (Hb0 : (0 <= b)%Z) by apply Z.log2_nonneg.
  (* 2^(a-b-1) < n/d *)
  assert (Hlow : pow2 (a - (b + 1)) < n # d).
  { unfold pow2. rewrite Qpower_minus by discriminate.
    fold (pow2 a). fold (pow2 (b + 1)).
    rewrite (pow2_nonneg_Z a), (pow2_nonneg_Z (b + 1)) by lia.
    apply Qlt_shift_div_r.
    - change 0 with (inject_Z 0). rewrite <- Zlt_Qlt. lia.
    - unfold Qlt, Qmult, inject_Z. cbn [Qnum Qden].
      rewrite Pos.mul_1_r, Z.mul_1_r.
      apply Z.le_lt_trans with (n * Z.pos d)%Z.
      + apply Z.mul_le_mono_nonneg_r; lia.
      + apply Z.mul_lt_mono_pos_l; lia. }
  destruct (Qle_bool (pow2 (a - b)) (n # d)) eqn:E.
  - apply Qle_bool_iff in E.
    assert (pow2 (a - b) < pow2 (e + 1)) by (eapply Qle_lt_trans; eauto).
    apply pow2_lt_inv in H. lia.
  - assert (pow2 (a - (b + 1)) < pow2 (e + 1)) by (eapply Qlt_trans; eauto).
    apply pow2_lt_inv in H. lia.
Qed.

Lemma ilog2_lower q e : pow2 e <= q -> (e <= ilog2 q)%Z.
Proof.
  intros Hle. pose proof (pow2_pos e) as Hp. unfold ilog2.
  destruct q as [n d]. cbn [Qnum Qden].
  assert (Hn : (0 < n)%Z).
  { assert (0 < n # d) as Hq by lra. unfold Qlt in Hq. cbn in Hq. lia. }
  set (a := Z.log2 n). set (b := Z.log2 (Z.pos d)).
  assert (Ha : (n < 2 ^ (a + 1))%Z).
  { replace (a + 1)%Z with (Z.succ a) by lia. apply Z.log2_spec. exact Hn. }
  assert (Hb : (2 ^ b <= Z.pos d)%Z) by (apply Z.log2_spec; lia).
  assert (Ha0 : (0 <= a)%Z) by apply Z.log2_nonneg.
  assert (Hb0 : (0 <= b)%Z) by apply Z.log2_nonneg.
  assert (Hup : n # d < pow2 (a + 1 - b)).
  { unfold pow2. rewrite Qpower_minus by discriminate.
    fold (pow2 (a + 1)). fold (pow2 b).
    rewrite (pow2_nonneg_Z (a + 1)), (pow2_nonneg_Z b) by lia.
    apply Qlt_shift_div_l.
    - change 0 with (inject_Z 0). rewrite <- Zlt_Qlt. lia.
    - unfold Qlt, Qmult, inject_Z. cbn [Qnum Qden].
      rewrite Pos.mul_1_r, Z.mul_1_r.
      apply Z.le_lt_trans with (n * Z.pos d)%Z.
      + apply Z.mul_le_mono_nonneg_l; lia.
      + apply Z.mul_lt_mono_pos_r; lia. }
  destruct (Qle_bool (pow2 (a - b)) (n # d)) eqn:E.
  - assert (pow2 e < pow2 (a + 1 - b)) as H by (eapply Qle_lt_trans; eauto).
    apply pow2_lt_inv in H. lia.
  - assert (n # d < pow2 (a - b)) as H.
    { destruct (Qlt_le_dec (n # d) (pow2 (a - b))) as [|Hc]; [assumption|].
      apply Qle_bool_iff in Hc. congruence. }
    assert (pow2 e < pow2 (a - b)) as H' by (eapply Qle_lt_trans; eauto).
    apply pow2_lt_inv in H'. lia.
Qed.

Lemma on_grid_coarser j i n : (j <= i)%Z -> on_grid j (inject_Z n * pow2 i).
Proof.
  intros H. exists (n * 2 ^ (i - j))%Z.
  rewrite inject_Z_mult, <- (pow2_nonneg_Z (i - j)) by lia.
  rewrite <- Qmult_assoc, <- pow2_plus.
  replace (i - j + j)%Z with i by lia. reflexivity.
Qed.

Lemma on_grid_Z j n : (j <= 0)%Z -> on_grid j (inject_Z n).
Proof.
  intros H. destruct (on_grid_coarser j 0 n H) as [m Hm].
  exists m. rewrite <- Hm. unfold pow2. cbn. ring.
Qed.

Lemma rnd_zero q : q == 0 -> rnd q = 0.
Proof. intros H. unfold rnd. rewrite (Qeq_eq_bool _ _ H). reflexivity. Qed.

Lemma rnd_le_grid q g : on_grid (ulp_exp q) g -> q <= g -> rnd q <= g.
Proof.
  intros [n Hn] Hle. unfold rnd.
  destruct (Qeq_bool q 0) eqn:E.
  - apply Qeq_bool_eq in E. rewrite <- E. exact Hle.
  - pose proof (pow2_pos (ulp_exp q)) as Hp.
    rewrite Hn. apply Qmult_le_compat_r; [|lra].
    rewrite <- Zle_Qle. apply round_half_even_le.
    apply Qle_shift_div_r; [exact Hp|]. rewrite <- Hn. exact Hle.
Qed.

Lemma rnd_ge_grid q g : on_grid (ulp_exp q) g -> g <= q -> g <= rnd q.
Proof.
  intros [n Hn] Hle. unfold rnd.
  destruct (Qeq_bool q 0) eqn:E.
  - apply Qeq_bool_eq in E. rewrite <- E. exact Hle.
  - pose proof (pow2_pos (ulp_exp q)) as Hp.
    rewrite Hn. apply Qmult_le_compat_r; [|lra].
    rewrite <- Zle_Qle. apply round_half_even_ge.
    apply Qle_shift_div_l; [exact Hp|]. rewrite <- Hn. exact Hle.
Qed.

Lemma ulp_exp_le q e :
  ~ q == 0 -> Qabs q < pow2 (e + 1) -> (-1074 <= e - 52)%Z ->
  (ulp_exp q <= e - 52)%Z.
Proof.
  intros Hq Hlt He. unfold ulp_exp.
  assert (0 < Qabs q).
  { destruct (Qlt_le_dec 0 (Qabs q)) as [|Hle]; [assumption|].
    exfalso. apply Hq. apply Qabs_Qle_condition in Hle. lra. }
  pose proof (ilog2_upper (Qabs q) e H Hlt). lia.
Qed.

(** Below [2^53] every integer is on the grid, so rounding never crosses
    one. *)
Lemma rnd_le_Z q n : Qabs q < pow2 53 -> q <= inject_Z n -> rnd q <= inject_Z n.
Proof.
  intros Hb Hle. destruct (Qeq_dec q 0) as [E|E].
  - rewrite (rnd_zero q E). rewrite <- E. exact Hle.
  - apply rnd_le_grid; [|exact Hle]. apply on_grid_Z.
    pose proof (ulp_exp_le q 52 E Hb). lia.
Qed.

Lemma rnd_ge_Z q n : Qabs q < pow2 53 -> inject_Z n <= q -> inject_Z n <= rnd q.
Proof.
  intros Hb Hle. destruct (Qeq_dec q 0) as [E|E].
  - rewrite (rnd_zero q E). rewrite <- E. exact Hle.
  - apply rnd_ge_grid; [|exact Hle]. apply on_grid_Z.
    pose proof (ulp_exp_le q 52 E Hb). lia.
Qed.

Lemma rnd_Z q n : Qabs q < pow2 53 -> q == inject_Z n -> rnd q == inject_Z n.
Proof.
  intros Hb E. apply Qle_antisym.
  - apply rnd_le_Z; [exact Hb|]. rewrite E. apply Qle_refl.
  - apply rnd_ge_Z; [exact Hb|]. rewrite E. apply Qle_refl.
Qed.

Lemma pow2_53_1024 : pow2 53 < pow2 1024.
Proof. apply Qpower_lt_compat_l; [lia | reflexivity]. Qed.

Lemma round64_finite q : Qabs (rnd q) < pow2 1024 -> round64 q = Finite (rnd q).
Proof.
  intros H. unfold round64.
  destruct (Qle_bool (pow2 1024) (Qabs (rnd q))) eqn:E; [|reflexivity].
  apply Qle_bool_iff in E. lra.
Qed.

Lemma round64_Z q n :
  Qabs q < pow2 53 -> q == inject_Z n ->
  round64 q = Finite (rnd q) /\ rnd q == inject_Z n.
Proof.
  intros Hb E. pose proof (rnd_Z q n Hb E) as Hr. split; [|exact Hr].
  apply round64_finite. rewrite Hr, <- E.
  pose proof pow2_53_1024. lra.
Qed.

Lemma round64_zero q : q == 0 -> round64 q = Finite 0.
Proof.
  intros H. unfold round64. rewrite (rnd_zero q H). reflexivity.
Qed.

Lemma Qtrunc_nonneg q : 0 <= q -> Qtrunc q = Qfloor q.
Proof.
  intros H. unfold Qtrunc. apply Qle_bool_iff in H. rewrite H. reflexivity.
Qed.

#[global] Instance Qtrunc_comp : Proper (Qeq ==> eq) Qtrunc.
Proof.
  intros x y H. unfold Qtrunc. rewrite H.
  destruct (Qle_bool 0 y); [apply Qfloor_comp | apply Qceiling_comp]; exact H.
Qed.

Lemma Qfloor_unique q n :
  inject_Z n <= q -> q < inject_Z (n + 1) -> Qfloor q = n.
Proof.
  intros H1 H2. pose proof (Qfloor_le q) as H3. pose proof (Qlt_floor q) as H4.
  assert (inject_Z n < inject_Z (Qfloor q + 1)) as H5 by lra.
  assert (inject_Z (Qfloor q) < inject_Z (n + 1)) as H6 by lra.
  rewrite <- Zlt_Qlt in H5, H6. lia.
Qed.

Lemma Qfloor_nonneg q : 0 <= q -> (0 <= Qfloor q)%Z.
Proof. intros H. rewrite <- (Qfloor_Z 0). apply Qfloor_resp_le. exact H. Qed.

(** Quotient and remainder by 60 of a non-negative float below [2^53]
    are computed without any rounding error. *)
Lemma float_divmod_60 q c :
  c == 60 -> 0 <= q -> q < pow2 53 ->
  exists k r,
    float_divmod (Finite q) (Finite c) = Ok (Finite k, Finite r)
    /\ k == inject_Z (Qfloor (q / 60))
    /\ r == q - 60 * inject_Z (Qfloor (q / 60)).
Proof.
  intros Hc Hq Hb.
  set (K := Qfloor (q / 60)).
  assert (HK0 : (0 <= K)%Z).
  { apply Qfloor_nonneg. apply Qle_shift_div_l; lra. }
  assert (HKl : 60 * inject_Z K <= q).
  { pose proof (Qfloor_le (q / 60)) as H. fold K in H.
    apply (Qmult_le_compat_r _ _ 60) in H; [|lra].
    field_simplify in H. field_simplify. lra. }
  assert (HKu : q < 60 * inject_Z K + 60).
  { pose proof (Qlt_floor (q / 60)) as H. fold K in H.
    rewrite inject_Z_plus in H.
    apply (Qmult_lt_compat_r _ _ 60) in H; [|lra].
    field_simplify in H. change (inject_Z 1) with 1 in H. lra. }
  assert (HK0' : 0 <= inject_Z K).
  { change 0 with (inject_Z 0). rewrite <- Zle_Qle. exact HK0. }
  assert (Hc0 : Qeq_bool c 0 = false).
  { destruct (Qeq_bool c 0) eqn:E; [|reflexivity].
    apply Qeq_bool_eq in E. lra. }
  assert (Ht : Qtrunc (q / c) = K).
  { rewrite Hc. rewrite Qtrunc_nonneg; [reflexivity|].
    apply Qle_shift_div_l; lra. }
  set (r0 := q - c * inject_Z K).
  assert (Hr0 : r0 == q - 60 * inject_Z K) by (unfold r0; rewrite Hc; reflexivity).
  assert (Hmod : fmod (Finite q) (Finite c) = Finite r0).
  { cbn [fmod]. rewrite Hc0, Ht. reflexivity. }
  (* (vx - mod) / wx *)
  destruct (round64_Z (q + - r0) (60 * K)%Z) as [E1 E1'].
  { rewrite Hr0. rewrite Qabs_pos; lra. }
  { rewrite Hr0, inject_Z_mult. change (inject_Z 60) with 60. ring. }
  set (s0 := rnd (q + - r0)) in *.
  assert (Hs0 : s0 / c == inject_Z K).
  { rewrite E1', Hc, inject_Z_mult. change (inject_Z 60) with 60. field. }
  destruct (round64_Z (s0 / c) K) as [E2 E2'].
  { rewrite Hs0. rewrite Qabs_pos; lra. }
  { exact Hs0. }
  set (d0 := rnd (s0 / c)) in *.
  assert (Hdiv : fdiv (fsub (Finite q) (Finite r0)) (Finite c) = Finite d0).
  { unfold fsub. cbn [fneg fadd]. rewrite E1. cbn [fdiv]. rewrite Hc0. exact E2. }
  assert (Hsgn : xorb (flt (Finite c) (Finite 0)) (flt (Finite r0) (Finite 0)) = false).
  { cbn [flt].
    assert (Qle_bool 0 c = true) as -> by (apply Qle_bool_iff; lra).
    assert (Qle_bool 0 r0 = true) as -> by (apply Qle_bool_iff; lra).
    reflexivity. }
  assert (Hfl : ffloor (Finite d0) = Finite (inject_Z K)).
  { cbn [ffloor]. rewrite (Qfloor_comp _ _ E2'), Qfloor_Z. reflexivity. }
  assert (Hsnap : flt (Finite (1 # 2)) (fsub (Finite d0) (Finite (inject_Z K))) = false).
  { unfold fsub. cbn [fneg fadd]. rewrite round64_zero by (rewrite E2'; ring).
    reflexivity. }
  unfold float_divmod.
  replace (is_zero (Finite c)) with false by (symmetry; exact Hc0).
  rewrite Hmod, Hdiv, Hsgn.
  destruct (truthy (Finite r0)) eqn:Tr; destruct (truthy (Finite d0)) eqn:Td;
    rewrite ?Hfl, ?Hsnap.
  - exists (inject_Z K), r0. split; [reflexivity|]. split; [reflexivity | exact Hr0].
  - exists 0, r0. split; [reflexivity|]. split; [|exact Hr0].
    unfold truthy in Td. cbn [is_zero] in Td.
    apply negb_false_iff, Qeq_bool_eq in Td. rewrite <- E2'. symmetry. exact Td.
  - exists (inject_Z K), 0. split; [reflexivity|]. split; [reflexivity|].
    unfold truthy in Tr. cbn [is_zero] in Tr.
    apply negb_false_iff, Qeq_bool_eq in Tr. rewrite <- Hr0. symmetry. exact Tr.
  - exists 0, 0. split; [reflexivity|]. split.
    + unfold truthy in Td. cbn [is_zero] in Td.
      apply negb_false_iff, Qeq_bool_eq in Td. rewrite <- E2'. symmetry. exact Td.
    + unfold truthy in Tr. cbn [is_zero] in Tr.
      apply negb_false_iff, Qeq_bool_eq in Tr. rewrite <- Hr0. symmetry. exact Tr.
Qed.

(** A binary64 value is a multiple of the unit in the last place of its
    binade. *)
Lemma is_binary64_grid q e :
  is_binary64 q = true -> pow2 e <= Qabs q -> Qabs q < pow2 (e + 1) ->
  (-1074 <= e - 52)%Z ->
  exists n : Z, q == inject_Z n * pow2 (e - 52).
Proof.
  intros Hf Hlo Hhi He. unfold is_binary64 in Hf.
  apply andb_true_iff in Hf as [Hf _]. apply Qeq_bool_eq in Hf.
  pose proof (pow2_pos e) as Hp.
  assert (Hq : ~ q == 0).
  { intros E. rewrite E in Hlo. change (Qabs 0) with 0 in Hlo. lra. }
  assert (Hu : ulp_exp q = (e - 52)%Z).
  { unfold ulp_exp.
    assert (0 < Qabs q) as Hpos by lra.
    pose proof (ilog2_upper (Qabs q) e Hpos Hhi).
    pose proof (ilog2_lower (Qabs q) e Hlo). lia. }
  unfold rnd in Hf. destruct (Qeq_bool q 0) eqn:E.
  - apply Qeq_bool_eq in E. contradiction.
  - rewrite Hu in Hf. eexists. symmetry. exact Hf.
Qed.

End F64Facts.

(** ** The coordinate converter *)

Module GeoFacts.
Import F64Facts.
Local Open Scope Q_scope.

Lemma of_Z_exact n :
  (Z.abs n < 2 ^ 53)%Z ->
  exists c, of_Z n = Finite c /\ c == inject_Z n.
Proof.
  intros H. unfold of_Z.
  destruct (round64_Z (inject_Z n) n) as [E1 E2]; [|reflexivity|eauto].
  rewrite (pow2_nonneg_Z 53) by lia.
  rewrite <- (Zabs_Qabs n 1). change (Z.abs n # 1) with (inject_Z (Z.abs n)).
  rewrite <- Zlt_Qlt. exact H.
Qed.

Lemma Qfloor_div_60 t : Qfloor (t / 60) = (Qfloor t / 60)%Z.
Proof.
  pose proof (Qfloor_le t) as H1. pose proof (Qlt_floor t) as H2.
  set (T := Qfloor t) in *.
  pose proof (Z.div_mod T 60 ltac:(lia)) as E.
  pose proof (Z.mod_pos_bound T 60 ltac:(lia)) as B.
  assert (E1 : inject_Z T == 60 * inject_Z (T / 60) + inject_Z (T mod 60)).
  { rewrite E at 1. rewrite inject_Z_plus, inject_Z_mult. reflexivity. }
  assert (B1 : 0 <= inject_Z (T mod 60)).
  { change 0 with (inject_Z 0). rewrite <- Zle_Qle. lia. }
  assert (B2 : inject_Z (T mod 60) <= 59).
  { change 59 with (inject_Z 59). rewrite <- Zle_Qle. lia. }
  rewrite inject_Z_plus in H2. change (inject_Z 1) with 1 in H2.
  apply Qfloor_unique.
  - apply Qle_shift_div_l; lra.
  - apply Qlt_shift_div_r; [lra|]. rewrite inject_Z_plus.
    change (inject_Z 1) with 1. lra.
Qed.

Lemma Qfloor_sub_Z t n : Qfloor (t - inject_Z n) = (Qfloor t - n)%Z.
Proof.
  pose proof (Qfloor_le t) as H1. pose proof (Qlt_floor t) as H2.
  rewrite inject_Z_plus in H2. change (inject_Z 1) with 1 in H2.
  apply Qfloor_unique.
  - unfold Z.sub. rewrite inject_Z_plus, inject_Z_opp. lra.
  - unfold Z.sub. rewrite !inject_Z_plus, inject_Z_opp.
    change (inject_Z 1) with 1. lra.
Qed.

Lemma Qtrunc_Z n : Qtrunc (inject_Z n) = n.
Proof.
  unfold Qtrunc. destruct (Qle_bool 0 (inject_Z n)); [apply Qfloor_Z | apply Qceiling_Z].
Qed.

Lemma Qtrunc_opp_nonneg y : 0 <= y -> Qtrunc (- y) = (- Qfloor y)%Z.
Proof.
  intros H. unfold Qtrunc. destruct (Qle_bool 0 (- y)) eqn:E.
  - apply Qle_bool_iff in E. assert (y == 0) as -> by lra. reflexivity.
  - unfold Qceiling. rewrite (Qfloor_comp (- - y) y); [reflexivity | ring].
Qed.

Lemma pos_test_Z q n : q == inject_Z n -> negb (Qle_bool q 0) = (0 <? n)%Z.
Proof.
  intros E. destruct (Qle_bool q 0) eqn:B; cbn [negb]; symmetry.
  - apply Qle_bool_iff in B. rewrite E in B. change 0 with (inject_Z 0) in B.
    rewrite <- Zle_Qle in B. apply Z.ltb_ge. exact B.
  - apply Z.ltb_lt. destruct (Z_lt_le_dec 0 n) as [|Hn]; [assumption|].
    exfalso. rewrite Zle_Qle in Hn. rewrite <- E in Hn.
    apply Qle_bool_iff in Hn. change (inject_Z 0) with 0 in Hn. congruence.
Qed.

Lemma decimal_to_dms_finite d :
  Qabs d * 3600 <= pow2 52 ->
  exists T : Z,
    decimal_to_dms (Finite d) = Ok (seconds_to_dms (Qneg_bool d) T)
    /\ (0 <= T)%Z
    /\ Qabs (inject_Z T - Qabs d * 3600) < 1
    /\ (1 <= Qabs d * 3600 -> (1 <= T)%Z)
    /\ (Qabs d * 3600 <= 1 - pow2 (-53) -> T = 0%Z).
Proof.
  intros Hb.
  destruct (of_Z_exact 3600) as (c36 & E36 & H36); [lia|].
  destruct (of_Z_exact 60) as (c60 & E60 & H60); [lia|].
  change (inject_Z 3600) with 3600 in H36. change (inject_Z 60) with 60 in H60.
  pose proof (Qabs_nonneg d) as Hd0.
  set (x := Qabs d * c36).
  assert (Hx : x == Qabs d * 3600) by (unfold x; rewrite H36; reflexivity).
  assert (Hx0 : 0 <= x) by (rewrite Hx; apply Qmult_le_0_compat; lra).
  assert (H5253 : pow2 52 < pow2 53) by (apply Qpower_lt_compat_l; [lia | reflexivity]).
  assert (Hxa : Qabs x < pow2 53) by (rewrite Qabs_pos by exact Hx0; lra).
  set (t := rnd x).
  assert (Ht0 : 0 <= t) by (apply (rnd_ge_Z x 0 Hxa); exact Hx0).
  assert (Ht52 : t <= pow2 52).
  { rewrite (pow2_nonneg_Z 52) by lia. apply (rnd_le_Z x _ Hxa).
    rewrite <- (pow2_nonneg_Z 52) by lia. lra. }
  assert (Et : round64 x = Finite t).
  { apply round64_finite. fold t. rewrite Qabs_pos by exact Ht0.
    pose proof pow2_53_1024. lra. }
  set (T := Qfloor t).
  destruct (float_divmod_60 t c60 H60 Ht0) as (k1 & r1 & Ed1 & Hk1 & Hr1); [lra|].
  rewrite Qfloor_div_60 in Hk1, Hr1. fold T in Hk1, Hr1.
  assert (HT0 : (0 <= T)%Z) by (apply Qfloor_nonneg; exact Ht0).
  pose proof (Qfloor_le t) as HTl. pose proof (Qlt_floor t) as HTu. fold T in HTl, HTu.
  assert (HK0 : (0 <= T / 60)%Z) by (apply Z.div_pos; lia).
  assert (HKT : (T / 60 <= T)%Z) by (apply Z.div_le_upper_bound; lia).
  assert (Hk1b : 0 <= k1 /\ k1 < pow2 53).
  { rewrite Hk1. split.
    - change 0 with (inject_Z 0). rewrite <- Zle_Qle. exact HK0.
    - apply Qle_lt_trans with (inject_Z T); [rewrite <- Zle_Qle; exact HKT | lra]. }
  destruct (float_divmod_60 k1 c60 H60 (proj1 Hk1b) (proj2 Hk1b))
    as (k2 & r2 & Ed2 & Hk2 & Hr2).
  assert (EK : Qfloor (k1 / 60) = (T / 60 / 60)%Z).
  { rewrite Hk1. rewrite (Zdiv_Qdiv (T / 60) 60). reflexivity. }
  rewrite EK in Hk2, Hr2.
  assert (Hr2' : r2 == inject_Z (T / 60 mod 60)).
  { rewrite Hr2, Hk1. rewrite Z.mod_eq by lia.
    unfold Z.sub. rewrite inject_Z_plus, inject_Z_opp, inject_Z_mult. reflexivity. }
  assert (Hs : Qfloor r1 = (T mod 60)%Z).
  { assert (E : 60 * inject_Z (T / 60) == inject_Z (60 * (T / 60)))
      by (rewrite inject_Z_mult; reflexivity).
    rewrite Hr1, E, Qfloor_sub_Z. fold T. rewrite Z.mod_eq by lia. reflexivity. }
  pose proof (Z.mod_pos_bound T 60 ltac:(lia)) as BS.
  pose proof (Z.mod_pos_bound (T / 60) 60 ltac:(lia)) as BM.
  assert (HD0 : (0 <= T / 60 / 60)%Z) by (apply Z.div_pos; lia).
  exists T. split.
  { unfold decimal_to_dms. rewrite E36, E60. cbn [fabs fmul]. fold x. rewrite Et.
    rewrite Ed1. cbn [mbind result_bind]. rewrite Ed2. cbn [mbind result_bind].
    cbn [flt].
    unfold seconds_to_dms, Qneg_bool.
    rewrite (pos_test_Z k2 _ Hk2), (pos_test_Z r2 _ Hr2').
    assert (Hr10 : 0 <= r1).
    { rewrite Hr1.
      assert (inject_Z (60 * (T / 60)) <= inject_Z T) as H
        by (rewrite <- Zle_Qle; pose proof (Z.mul_div_le T 60); lia).
      rewrite inject_Z_mult in H. change (inject_Z 60) with 60 in H. lra. }
    assert (Ik2 : Qtrunc k2 = (T / 60 / 60)%Z) by (rewrite Hk2; apply Qtrunc_Z).
    assert (Ir2 : Qtrunc r2 = (T / 60 mod 60)%Z) by (rewrite Hr2'; apply Qtrunc_Z).
    assert (Ir1 : Qtrunc r1 = (T mod 60)%Z) by (rewrite Qtrunc_nonneg; assumption).
    assert (Ink2 : Qtrunc (- k2) = (- (T / 60 / 60))%Z).
    { rewrite Hk2, <- inject_Z_opp. apply Qtrunc_Z. }
    assert (Inr2 : Qtrunc (- r2) = (- (T / 60 mod 60))%Z).
    { rewrite Hr2', <- inject_Z_opp. apply Qtrunc_Z. }
    assert (Inr1 : Qtrunc (- r1) = (- (T mod 60))%Z).
    { rewrite Qtrunc_opp_nonneg by exact Hr10. rewrite Hs. reflexivity. }
    destruct (negb (Qle_bool 0 d));
      [destruct (0 <? T / 60 / 60)%Z; [|destruct (0 <? T / 60 mod 60)%Z]|];
      cbn [fneg py_int mbind result_bind];
      rewrite ?Ik2, ?Ir2, ?Ir1, ?Ink2, ?Inr2, ?Inr1; reflexivity. }
  split; [exact HT0|].
  assert (HF : inject_Z (Qfloor x) <= t).
  { apply (rnd_ge_Z x _ Hxa). apply Qfloor_le. }
  assert (HC : t <= inject_Z (Qceiling x)).
  { apply (rnd_le_Z x _ Hxa). apply Qle_ceiling. }
  split.
  { apply Qabs_Qlt_condition. rewrite <- Hx.
    pose proof (Qlt_floor x) as Hf. rewrite inject_Z_plus in Hf.
    change (inject_Z 1) with 1 in Hf. pose proof (Qceiling_lt x) as Hc.
    unfold Z.sub in Hc. rewrite inject_Z_plus, inject_Z_opp in Hc.
    change (inject_Z 1) with 1 in Hc.
    rewrite inject_Z_plus in HTu. change (inject_Z 1) with 1 in HTu.
    assert (inject_Z T <= inject_Z (Qceiling x)).
    { rewrite <- Zle_Qle. rewrite <- (Qfloor_Z (Qceiling x)).
      apply Qfloor_resp_le. exact HC. }
    assert (inject_Z (Qfloor x) <= inject_Z T).
    { rewrite <- Zle_Qle. rewrite <- (Qfloor_Z (Qfloor x)).
      apply Qfloor_resp_le. exact HF. }
    split; lra. }
  split.
  { intros H1. rewrite <- Hx in H1.
    assert (1 <= t) by (apply (rnd_ge_Z x 1 Hxa); exact H1).
    rewrite <- (Qfloor_Z 1). apply Qfloor_resp_le. assumption. }
  { intros H1. rewrite <- Hx in H1.
    assert (Hp53 : 0 < pow2 (-53)) by apply pow2_pos.
    assert (t <= 1 - pow2 (-53)).
    { destruct (Qeq_dec x 0) as [E|E].
      - unfold t. rewrite (rnd_zero x E). lra.
      - apply rnd_le_grid; [|exact H1].
        assert (ulp_exp x <= -53)%Z.
        { assert (Hlt : Qabs x < pow2 (-1 + 1)).
          { rewrite Qabs_pos by exact Hx0. change (pow2 (-1 + 1)) with 1. lra. }
          pose proof (ulp_exp_le x (-1) E Hlt). lia. }
        destruct (on_grid_coarser (ulp_exp x) (-53) (2 ^ 53 - 1) H) as [m Hm].
        exists m. rewrite <- Hm. reflexivity. }
    apply Qfloor_unique; [exact Ht0|]. change (inject_Z (0 + 1)) with 1. lra. }
Qed.

Lemma seconds_total T :
  (0 <= T)%Z ->
  (T = 3600 * (T / 60 / 60) + 60 * (T / 60 mod 60) + T mod 60
   /\ 0 <= T / 60 / 60 /\ 0 <= T / 60 mod 60 < 60 /\ 0 <= T mod 60 < 60)%Z.
Proof.
  intros HT.
  pose proof (Z.div_mod T 60 ltac:(lia)).
  pose proof (Z.div_mod (T / 60) 60 ltac:(lia)).
  pose proof (Z.mod_pos_bound T 60 ltac:(lia)).
  pose proof (Z.mod_pos_bound (T / 60) 60 ltac:(lia)).
  assert (0 <= T / 60)%Z by (apply Z.div_pos; lia).
  assert (0 <= T / 60 / 60)%Z by (apply Z.div_pos; lia).
  lia.
Qed.

(** Reconstruction from the triple of [T] seconds gives back [T/3600],
    with the sign whenever [T] is not zero. *)
Lemma dms_to_decimal_seconds neg T :
  (0 <= T)%Z ->
  dms_to_decimal (seconds_to_dms neg T)
  == (if neg && (0 <? T)%Z then - (inject_Z T / 3600) else inject_Z T / 3600).
Proof.
  intros HT. destruct (seconds_total T HT) as (E & HD & HM & HS).
  set (D := (T / 60 / 60)%Z) in *. set (M := (T / 60 mod 60)%Z) in *.
  set (S := (T mod 60)%Z) in *.
  assert (ET : inject_Z T == 3600 * inject_Z D + 60 * inject_Z M + inject_Z S).
  { rewrite E at 1. rewrite !inject_Z_plus, !inject_Z_mult. reflexivity. }
  unfold seconds_to_dms. fold D M S.
  destruct neg; cbn [andb].
  - destruct (0 <? D)%Z eqn:ED; [|destruct (0 <? M)%Z eqn:EM]; cbn [dms_to_decimal].
    + apply Z.ltb_lt in ED.
      assert ((- D <? 0)%Z = true) as -> by (apply Z.ltb_lt; lia).
      assert ((0 <? T)%Z = true) as -> by (apply Z.ltb_lt; lia).
      cbn [orb]. rewrite Z.abs_opp, !Z.abs_eq by lia. rewrite ET. field.
    + apply Z.ltb_ge in ED. apply Z.ltb_lt in EM.
      assert ((D <? 0)%Z = false) as -> by (apply Z.ltb_ge; lia).
      assert ((- M <? 0)%Z = true) as -> by (apply Z.ltb_lt; lia).
      assert ((0 <? T)%Z = true) as -> by (apply Z.ltb_lt; lia).
      cbn [orb]. rewrite Z.abs_opp, !Z.abs_eq by lia. rewrite ET. field.
    + apply Z.ltb_ge in ED. apply Z.ltb_ge in EM.
      assert ((D <? 0)%Z = false) as -> by (apply Z.ltb_ge; lia).
      assert ((M <? 0)%Z = false) as -> by (apply Z.ltb_ge; lia).
      cbn [orb]. rewrite Z.abs_opp, !Z.abs_eq by lia.
      assert (T = S) as ETS by lia.
      destruct (- S <? 0)%Z eqn:ES.
      * apply Z.ltb_lt in ES.
        assert ((0 <? T)%Z = true) as -> by (apply Z.ltb_lt; lia).
        rewrite ET. field.
      * apply Z.ltb_ge in ES.
        assert ((0 <? T)%Z = false) as -> by (apply Z.ltb_ge; lia).
        rewrite ET. field.
  - cbn [dms_to_decimal].
    assert ((D <? 0)%Z = false) as -> by (apply Z.ltb_ge; lia).
    assert ((M <? 0)%Z = false) as -> by (apply Z.ltb_ge; lia).
    assert ((S <? 0)%Z = false) as -> by (apply Z.ltb_ge; lia).
    cbn [orb]. rewrite !Z.abs_eq by lia. rewrite ET. field.
Qed.

Lemma sign_on_first_nonzero_seconds T :
  (1 <= T)%Z -> sign_on_first_nonzero (seconds_to_dms true T) = true.
Proof.
  intros HT. destruct (seconds_total T ltac:(lia)) as (E & HD & HM & HS).
  unfold seconds_to_dms, sign_on_first_nonzero.
  set (D := (T / 60 / 60)%Z) in *. set (M := (T / 60 mod 60)%Z) in *.
  set (S := (T mod 60)%Z) in *.
  destruct (0 <? D)%Z eqn:ED; [|destruct (0 <? M)%Z eqn:EM].
  - apply Z.ltb_lt in ED.
    assert ((- D =? 0)%Z = false) as -> by (apply Z.eqb_neq; lia).
    cbn [negb]. rewrite !andb_true_iff, Z.ltb_lt, !Z.leb_le. lia.
  - apply Z.ltb_ge in ED. apply Z.ltb_lt in EM.
    assert ((D =? 0)%Z = true) as -> by (apply Z.eqb_eq; lia).
    assert ((- M =? 0)%Z = false) as -> by (apply Z.eqb_neq; lia).
    cbn [negb]. rewrite !andb_true_iff, Z.ltb_lt, !Z.leb_le. lia.
  - apply Z.ltb_ge in ED. apply Z.ltb_ge in EM.
    assert ((D =? 0)%Z = true) as -> by (apply Z.eqb_eq; lia).
    assert ((M =? 0)%Z = true) as -> by (apply Z.eqb_eq; lia).
    cbn [negb]. apply Z.ltb_lt. lia.
Qed.

Lemma Qneg_bool_true d : d < 0 -> Qneg_bool d = true.
Proof.
  intros H. unfold Qneg_bool. destruct (Qle_bool 0 d) eqn:E; [|reflexivity].
  apply Qle_bool_iff in E. lra.
Qed.

Lemma Qneg_bool_false d : 0 <= d -> Qneg_bool d = false.
Proof.
  intros H. unfold Qneg_bool. apply Qle_bool_iff in H. rewrite H. reflexivity.
Qed.

(** Up to [10^12] degrees the number of seconds stays below [2^52]. *)
Lemma seconds_in_range d :
  Qabs d <= inject_Z (10 ^ 12) -> Qabs d * 3600 <= pow2 52.
Proof.
  intros Hb. apply Qle_trans with (inject_Z (10 ^ 12) * 3600).
  - apply Qmult_le_compat_r; [exact Hb | discriminate].
  - apply Qle_bool_iff. vm_compute. reflexivity.
Qed.

(** Both sides of a bound in degrees, turned into seconds. *)
Ltac in_seconds :=
  split; (apply Qmult_lt_r with 3600; [reflexivity|]); field_simplify; lra.

(** C6 (amended).  For every decimal degree value [d] of magnitude at
    most [10^12], [decimal_to_dms d] returns a triple whose
    reconstruction (degrees + minutes/60 + seconds/3600, negative when a
    component carries the sign) is within one second of arc of [d]; and
    when [d <= -1/3600] the sign is on exactly one component: degrees if
    non-zero, else minutes if non-zero, else seconds. *)
Theorem decimal_to_dms_roundtrip d :
  Qabs d <= inject_Z (10 ^ 12) ->
  exists t,
    decimal_to_dms (Finite d) = Ok t
    /\ Qabs (dms_to_decimal t - d) < 1 # 3600
    /\ (d <= - (1 # 3600) -> sign_on_first_nonzero t = true).
Proof.
  intros Hb.
  destruct (decimal_to_dms_finite d (seconds_in_range d Hb))
    as (T & Hdms & HT0 & Hnear & Hone & _).
  exists (seconds_to_dms (Qneg_bool d) T). split; [exact Hdms|].
  apply Qabs_Qlt_condition in Hnear.
  assert (HTq : 0 <= inject_Z T).
  { change 0 with (inject_Z 0). rewrite <- Zle_Qle. exact HT0. }
  split.
  - rewrite (dms_to_decimal_seconds _ T HT0). apply Qabs_Qlt_condition.
    destruct (Qlt_le_dec d 0) as [Hneg|Hpos].
    + rewrite (Qneg_bool_true d Hneg). rewrite (Qabs_neg d) in Hnear by lra.
      cbn [andb]. destruct (0 <? T)%Z eqn:ET.
      * in_seconds.
      * apply Z.ltb_ge in ET. assert (T = 0%Z) as -> by lia.
        change (inject_Z 0) with 0 in *.
        in_seconds.
    + rewrite (Qneg_bool_false d Hpos). rewrite (Qabs_pos d) in Hnear by lra.
      cbn [andb].
      in_seconds.
  - intros Hd. rewrite (Qneg_bool_true d) by lra.
    apply sign_on_first_nonzero_seconds. apply Hone.
    rewrite (Qabs_neg d) by lra. lra.
Qed.

(** C10 (amended).  For every negative binary64 value [d] whose
    magnitude is strictly below the binary64 value of [1/3600],
    [decimal_to_dms d] returns exactly [(0, 0, 0)]: no component records
    that the input was negative.  The binary64 value of [1/3600] is
    itself below [1/3600], and its opposite is the one negative value
    of magnitude below [1/3600] that is left out. *)
Theorem decimal_to_dms_below_one_second d :
  is_binary64 d = true ->
  d < 0 ->
  flt (fabs (Finite d)) (fdiv (of_Z 1) (of_Z 3600)) = true ->
  decimal_to_dms (Finite d) = Ok (0, 0, 0)%Z.
Proof.
  intros Hf Hneg Hlt.
  assert (E : fdiv (of_Z 1) (of_Z 3600)
              = Finite (5124095576030431 # 18446744073709551616))
    by (vm_compute; reflexivity).
  rewrite E in Hlt. cbn [fabs flt] in Hlt.
  apply negb_true_iff in Hlt.
  assert (Hd : Qabs d < 5124095576030431 # 18446744073709551616).
  { destruct (Qlt_le_dec (Qabs d) (5124095576030431 # 18446744073709551616))
      as [|Hc]; [assumption|]. apply Qle_bool_iff in Hc. congruence. }
  clear Hlt E.
  assert (Hsmall : Qabs d * 3600 <= 1 - pow2 (-53)).
  { destruct (Qlt_le_dec (Qabs d) (pow2 (-12))) as [Hlow|Hhigh].
    - change (pow2 (-12)) with (1 # 4096) in Hlow.
      change (pow2 (-53)) with (1 # 9007199254740992). lra.
    - destruct (is_binary64_grid d (-12) Hf Hhigh) as [n Hn]; [|lia|].
      { change (pow2 (-12 + 1)) with (1 # 2048). lra. }
      change (pow2 (-12 - 52)) with (1 # 18446744073709551616) in Hn.
      rewrite (Qabs_neg d) in Hd |- * by lra.
      assert (Hn' : (- n < 5124095576030431)%Z).
      { rewrite Zlt_Qlt, inject_Z_opp.
        change (inject_Z 5124095576030431) with 5124095576030431. lra. }
      assert (Hn'' : inject_Z (- n) <= 5124095576030430).
      { change 5124095576030430 with (inject_Z 5124095576030430).
        rewrite <- Zle_Qle. lia. }
      rewrite inject_Z_opp in Hn''.
      change (pow2 (-53)) with (1 # 9007199254740992). lra. }
  destruct (decimal_to_dms_finite d) as (T & Hdms & _ & _ & _ & Hzero).
  { assert (1 <= pow2 52) by (apply Qle_bool_iff; reflexivity).
    pose proof (pow2_pos (-53)). lra. }
  rewrite Hdms, (Hzero Hsmall), (Qneg_bool_true d Hneg). reflexivity.
Qed.

Local Close Scope Q_scope.

Lemma text_split_nonempty sep s : text_split sep s <> [].
Proof.
  destruct s as [|c s]; cbn; [discriminate|].
  destruct (c =? sep)%N; [discriminate|].
  destruct (text_split sep s); discriminate.
Qed.

Lemma text_split_one sep s x :
  text_split sep s = [x] <-> s = x /\ (sep ∉ x).
Proof.
  revert x. induction s as [|c s IH]; intros x; cbn.
  - split.
    + intros [= <-]. split; [reflexivity|]. apply not_elem_of_nil.
    + intros [<- _]. reflexivity.
  - destruct (N.eqb_spec c sep) as [->|Hc].
    + split.
      * intros [= <- Hs]. exfalso. exact (text_split_nonempty sep s Hs).
      * intros [<- Hx]. exfalso. apply Hx. left.
    + destruct (text_split sep s) as [|h t] eqn:Es.
      * exfalso. exact (text_split_nonempty sep s Es).
      * split.
        -- intros [= <- ->]. destruct (proj1 (IH h) eq_refl) as [-> Hh].
           split; [reflexivity|]. intros Hin. apply elem_of_cons in Hin as [?|?];
             [congruence|contradiction].
        -- intros [<- Hx].
           assert (Hs : sep ∉ s) by (intros Hin; apply Hx; right; exact Hin).
           pose proof (proj2 (IH s) (conj eq_refl Hs)) as Hq.
           injection Hq as -> ->. reflexivity.
Qed.

Lemma text_split_two sep s l r :
  text_split sep s = [l; r]
  <-> s = l ++ sep :: r /\ (sep ∉ l) /\ (sep ∉ r).
Proof.
  revert l. induction s as [|c s IH]; intros l; cbn.
  - split; [discriminate|]. intros [E _]. destruct l; discriminate.
  - destruct (N.eqb_spec c sep) as [->|Hc].
    + split.
      * intros [= <- Hs]. apply text_split_one in Hs as [-> Hr].
        split; [reflexivity|]. split; [apply not_elem_of_nil|exact Hr].
      * intros (E & Hl & Hr). destruct l as [|c' l].
        -- cbn in E. injection E as ->.
           rewrite (proj2 (text_split_one sep r r) (conj eq_refl Hr)). reflexivity.
        -- cbn in E. injection E as <- _. exfalso. apply Hl. left.
    + destruct (text_split sep s) as [|h t] eqn:Es.
      * exfalso. exact (text_split_nonempty sep s Es).
      * split.
        -- intros [= <- ->]. destruct (proj1 (IH h) eq_refl) as (-> & Hh & Hr).
           split; [reflexivity|]. split; [|exact Hr].
           intros Hin. apply elem_of_cons in Hin as [?|?]; [congruence|contradiction].
        -- intros (E & Hl & Hr). destruct l as [|c' l].
           ++ cbn in E. injection E as -> _. congruence.
           ++ cbn in E. injection E as <- ->.
              assert (Hl' : sep ∉ l) by (intros Hin; apply Hl; right; exact Hin).
              pose proof (proj2 (IH l) (conj eq_refl (conj Hl' Hr))) as Hq.
              injection Hq as -> ->. reflexivity.
Qed.

(** C8 (amended).  [lat_long_decimal_to_dms] returns a pair exactly when
    the string is one text before a comma and one after it, neither
    holding a comma, both accepted by [float], and [decimal_to_dms]
    returns on both parsed values; the pair is then made of these two
    results.  It fails in every other case.  [decimal_to_dms] raises on
    [nan] and on the infinities, which [float] accepts, and returns on
    every finite value of magnitude at most [10^12].  This holds
    whatever the Unicode database of the interpreter. *)
Theorem lat_long_decimal_to_dms_spec `{Unicode} coord :
  (forall p,
     lat_long_decimal_to_dms coord = Ok p
     <-> exists N W n w,
           coord = N ++ comma :: W
           /\ (comma ∉ N) /\ (comma ∉ W)
           /\ py_float N = Ok n /\ py_float W = Ok w
           /\ decimal_to_dms n = Ok p.1 /\ decimal_to_dms w = Ok p.2)
  /\ is_ok (decimal_to_dms NaN) = false
  /\ (forall neg, is_ok (decimal_to_dms (Inf neg)) = false)
  /\ (forall q, (Qabs q <= inject_Z (10 ^ 12))%Q ->
        is_ok (decimal_to_dms (Finite q)) = true).
Proof.
  split; [|split; [reflexivity|split]].
  - intros p. unfold lat_long_decimal_to_dms. split.
    + destruct (text_split comma coord) as [|N [|W [|]]] eqn:Es; try discriminate.
      apply text_split_two in Es as (-> & HN & HW).
      unfold mbind, result_bind.
      destruct (py_float N) as [n|] eqn:En; [|discriminate].
      destruct (decimal_to_dms n) as [a|] eqn:Ea; [|discriminate].
      destruct (py_float W) as [w|] eqn:Ew; [|discriminate].
      destruct (decimal_to_dms w) as [b|] eqn:Eb; [|discriminate].
      intros [= <-]. exists N, W, n, w. cbn. auto 10.
    + intros (N & W & n & w & -> & HN & HW & En & Ew & Ea & Eb).
      rewrite (proj2 (text_split_two comma _ N W) (conj eq_refl (conj HN HW))).
      unfold mbind, result_bind. rewrite En, Ea, Ew, Eb.
      destruct p; reflexivity.
  - intros []; reflexivity.
  - intros q Hq.
    destruct (decimal_to_dms_finite q (seconds_in_range q Hq)) as (T & -> & _).
    reflexivity.
Qed.

End GeoFacts.

(** ** The downloader *)

Module DlFacts.
Import Frames.

Lemma chunks_fuel_concat fuel n body :
  (0 < n)%nat -> (length body <= fuel)%nat ->
  concat (chunks_fuel fuel n body) = body.
Proof.
  intros Hn. revert body. induction fuel as [|fuel IH]; intros body Hl.
  - destruct body; [reflexivity | cbn in Hl; lia].
  - destruct body as [|b body]; [reflexivity|].
    cbn [chunks_fuel concat]. rewrite IH.
    + apply take_drop.
    + rewrite length_drop. cbn [length] in *. lia.
Qed.

Lemma iter_content_concat n body :
  (0 < n)%nat -> concat (iter_content n body) = body.
Proof. intros Hn. apply chunks_fuel_concat; [exact Hn | reflexivity]. Qed.

(** Writing the chunks one after the other appends their concatenation. *)
Lemma for_each_write f chunks w data :
  fs w !! f = Some (File data None) ->
  for_each chunks (write f) w
  = (Ok tt, set_fs (fun m => <[f := File (data ++ concat chunks) None]> m) w).
Proof.
  revert w data. induction chunks as [|c chunks IH]; intros w data Hf.
  - cbn. rewrite app_nil_r. unfold set_fs. rewrite insert_id by exact Hf.
    destruct w; reflexivity.
  - cbn [for_each]. unfold mbind, M_bind, write at 1. rewrite Hf.
    rewrite (IH _ (data ++ c)).
    + unfold set_fs. cbn. rewrite insert_insert_eq, <- app_assoc. reflexivity.
    + cbn. apply lookup_insert_eq.
Qed.

Section WithEnv.
Context `{Env}.

Lemma for_each_outcome {A} (l : list A) (body : A -> M unit) w :
  (for_each l body w).1 = Ok tt \/ exists e, (for_each l body w).1 = Raise e.
Proof.
  revert w. induction l as [|x l IH]; intros w; cbn [for_each].
  - left. reflexivity.
  - unfold mbind, M_bind. destruct (body x w) as [[[]|e] w1]; cbn.
    + apply IH.
    + right. eauto.
Qed.

Lemma logging_frame l msg w :
  exists w1,
    logging l msg w = (Ok tt, w1)
    /\ fs w1 = fs w /\ gets w1 = gets w /\ level w1 = level w
    /\ uuids w1 = uuids w.
Proof.
  unfold logging. eexists. split; [reflexivity|].
  destruct (_ <=? _); cbn; auto.
Qed.

(** A photo whose probed path exists costs one debug record. *)
Lemma skip_step coordinate group_path photo w :
  is_Some (fs w !! str (truediv group_path (sanitize_filename (title photo)))) ->
  download_photo coordinate group_path photo w
  = logging DEBUG
      ("> " +:+ str (truediv group_path (sanitize_filename (title photo)))
       +:+ " exists already, so skipping download") w.
Proof.
  intros [n Hn]. unfold download_photo, download_file, mbind, M_bind, exists_. rewrite Hn.
  reflexivity.
Qed.

(** One iteration.  When the path probed for a photo (album directory
    joined with the sanitized title, before any suffix is added) exists,
    the iteration for that photo returns at once: the file system is
    left as it was, so that file keeps its bytes and its timestamp, no
    GET request is made and no token is drawn, whatever the coordinate
    override and the capture date. *)
Lemma skip_existing_is_frame coordinate group_path photo w :
  is_Some (fs w !! str (truediv group_path (sanitize_filename (title photo)))) ->
  exists w',
    download_photo coordinate group_path photo w = (Ok tt, w')
    /\ fs w' = fs w /\ gets w' = gets w /\ uuids w' = uuids w
    /\ level w' = level w.
Proof.
  intros Hp. rewrite (skip_step coordinate group_path photo w Hp).
  destruct (logging_frame DEBUG
              ("> " +:+ str (truediv group_path (sanitize_filename (title photo)))
               +:+ " exists already, so skipping download") w)
    as (w1 & -> & Hfs & Hgets & Hlevel & Huuids).
  exists w1. auto.
Qed.


(** Photos whose probed paths all exist are passed over. *)
Lemma photos_idle coordinate group_path (l : list Photo) w :
  Forall (fun photo =>
    is_Some (fs w !! str (truediv group_path (sanitize_filename (title photo))))) l ->
  exists w',
    for_each l (download_photo coordinate group_path) w = (Ok tt, w')
    /\ fs w' = fs w /\ gets w' = gets w.
Proof.
  revert w. induction l as [|photo l IH]; intros w Hall.
  - exists w. cbn. auto.
  - apply Forall_cons in Hall as [[n Hn] Hall].
    cbn [for_each]. unfold mbind at 1, M_bind at 1.
    rewrite (skip_step coordinate group_path photo w (ex_intro _ n Hn)).
    destruct (logging_frame DEBUG
                ("> " +:+ str (truediv group_path (sanitize_filename (title photo)))
                 +:+ " exists already, so skipping download") w)
      as (w1 & -> & Hfs & Hgets & _).
    destruct (IH w1) as (w' & -> & Hfs' & Hgets').
    { rewrite Hfs. exact Hall. }
    exists w'. rewrite Hfs', Hgets', Hfs, Hgets. auto.
Qed.

Lemma album_idle coordinate download_dir album w :
  let group_path :=
    truediv download_dir
      (sanitize_filepath (replace_char "/" " " (album_title album))) in
  fs w !! str group_path = Some Dir ->
  Forall (fun photo =>
    is_Some (fs w !! str (truediv group_path (sanitize_filename (title photo)))))
    (photos album) ->
  exists w',
    download_album coordinate download_dir album w = (Ok tt, w')
    /\ fs w' = fs w /\ gets w' = gets w.
Proof.
  intros group_path Hgp Hph. unfold download_album, mbind at 1, M_bind at 1.
  destruct (logging_frame INFO ("Downloading album: " +:+ album_title album) w)
    as (w1 & -> & Hfs1 & Hgets1 & _).
  unfold mbind at 1, M_bind at 1, mkdir_exist_ok. fold group_path.
  rewrite Hfs1, Hgp.
  destruct (photos_idle coordinate group_path (photos album) w1)
    as (w2 & -> & Hfs2 & Hgets2).
  { rewrite Hfs1. exact Hph. }
  exists w2. rewrite Hfs2, Hgets2, Hfs1, Hgets1. auto.
Qed.

(** A run over photos whose probed paths all exist, in album
    directories that all exist, is idle: it returns [True], issues no
    GET and leaves the file system as it was. *)
Lemma rerun_is_idle albums download_dir coordinate w :
  fs w !! str download_dir = Some Dir ->
  Forall (fun album =>
    let group_path :=
      truediv download_dir
        (sanitize_filepath (replace_char "/" " " (album_title album))) in
    fs w !! str group_path = Some Dir
    /\ Forall (fun photo =>
         is_Some (fs w !! str (truediv group_path (sanitize_filename (title photo)))))
         (photos album)) albums ->
  exists w',
    download_albums albums download_dir coordinate w = (Ok true, w')
    /\ fs w' = fs w /\ gets w' = gets w.
Proof.
  intros Hdir Hall.
  assert (Hloop : forall w0, fs w0 = fs w -> exists w',
    for_each albums (download_album coordinate download_dir) w0 = (Ok tt, w')
    /\ fs w' = fs w /\ gets w' = gets w0).
  { induction Hall as [|album l [Hgp Hph] _ IH]; intros w0 Hw0.
    - exists w0. cbn. auto.
    - cbn [for_each]. unfold mbind at 1, M_bind at 1.
      destruct (album_idle coordinate download_dir album w0)
        as (w1 & -> & Hfs1 & Hgets1).
      { rewrite Hw0. exact Hgp. }
      { rewrite Hw0. exact Hph. }
      destruct (IH w1) as (w' & -> & Hfs' & Hgets').
      { rewrite Hfs1. exact Hw0. }
      exists w'. rewrite Hgets', Hgets1. auto. }
  destruct (Hloop w eq_refl) as (w' & Hrun & Hfs & Hgets).
  unfold download_albums, mbind, M_bind, is_dir. rewrite Hdir. cbn [negb].
  rewrite Hrun. exists w'. auto.
Qed.

Lemma written_name_frame f w :
  exists name w1,
    written_name f w = (Ok name, w1)
    /\ fs w1 = fs w /\ gets w1 = gets w /\ log w1 = log w /\ level w1 = level w.
Proof.
  unfold written_name, mbind, M_bind, uuid_uuid4, mret, M_ret.
  destruct (contains "file.jpg" _); do 2 eexists; (split; [reflexivity|]); cbn; auto.
Qed.

Lemma fetch_ok name u w body :
  http_get u = Ok {| content := body; broken := None |} ->
  open_error (fs w) name = None ->
  exists w1,
    fetch name u w = (Ok tt, w1)
    /\ fs w1 = <[name := File body None]> (fs w)
    /\ level w1 = level w.
Proof.
  intros Hget Hdir. unfold fetch, mbind, M_bind.
  destruct (logging_frame INFO ("> Downloading image: " +:+ name) w)
    as (w0 & -> & Hfs0 & _ & Hl0 & _).
  unfold requests_get. rewrite Hget. unfold open_wb at 1. cbn [fs].
  rewrite Hfs0, Hdir. cbn [content broken].
  rewrite for_each_write with (data := []) by (cbn; apply lookup_insert_eq).
  eexists; (split; [reflexivity|]); cbn; rewrite insert_insert_eq.
  rewrite iter_content_concat by (cbn; lia); auto.
Qed.

Lemma tag_accepts name c w body mt img out :
  fs w !! name = Some (File body mt) ->
  tagged_image body c = Ok img ->
  exif_get_file img = Ok out ->
  exists w1,
    tag (Some c) name w = (Ok tt, w1)
    /\ fs w1 = <[name := File out None]> (fs w)
    /\ log w1 = log w /\ level w1 = level w.
Proof.
  intros Hf Ht Hg.
  unfold tag, try_except_RuntimeError, store_exif, mbind, M_bind, read_rb, lift.
  rewrite Hf, Ht. unfold open_wb, open_error. rewrite Hf, Hg. unfold write. cbn.
  rewrite lookup_insert_eq. eexists. split; [reflexivity|]. cbn.
  rewrite insert_insert_eq. auto.
Qed.

Lemma tag_rejects name c w body mt e :
  fs w !! name = Some (File body mt) ->
  tagged_image body c = Raise e ->
  is_RuntimeError e = true ->
  exists w1,
    tag (Some c) name w = (Ok tt, w1)
    /\ fs w1 = fs w /\ level w1 = level w
    /\ (level_no (level w) <= level_no WARNING ->
        log w1 = log w ++ [(WARNING, "Unable to store EXIF data: " +:+ exn_msg e)]).
Proof.
  intros Hf Ht He.
  unfold tag, try_except_RuntimeError, store_exif, mbind, M_bind, read_rb, lift.
  rewrite Hf, Ht, He. unfold logging. eexists. split; [reflexivity|].
  destruct (level_no (level w) <=? level_no WARNING) eqn:El; cbn; repeat split; auto.
  intros Hle. apply Z.leb_gt in El. cbn in *. lia.
Qed.

(** A [RuntimeError] raised later, by [get_file], is caught as well, but
    by then the file has been reopened for writing. *)
Remark tag_get_file_raises name c w body mt img e :
  fs w !! name = Some (File body mt) ->
  tagged_image body c = Ok img ->
  exif_get_file img = Raise e ->
  is_RuntimeError e = true ->
  fs (tag (Some c) name w).2 = <[name := File [] None]> (fs w).
Proof.
  intros Hf Ht Hg He.
  unfold tag, try_except_RuntimeError, store_exif, mbind, M_bind, read_rb, lift.
  rewrite Hf, Ht. unfold open_wb, open_error. rewrite Hf, Hg, He. unfold logging.
  destruct (level_no _ <=? level_no WARNING); reflexivity.
Qed.


Lemma logging_log l msg w :
  log (logging l msg w).2 = log w ++ emitted (level w) [(l, msg)].
Proof.
  unfold logging, emitted. cbn.
  destruct (level_no (level w) <=? level_no l); cbn; [reflexivity|].
  rewrite app_nil_r. reflexivity.
Qed.

Lemma emitted_app l a b : emitted l (a ++ b) = emitted l a ++ emitted l b.
Proof. apply List.filter_app. Qed.




(** Whatever [main] returns, the script exits with status 0. *)
Lemma run_script_drops_status `{Unicode} `{Fetch.Remote} `{Loose} args s z :
  (main args s).1 = Ok z -> (run_script args s).1 = 0.
Proof.
  unfold run_script. destruct (main args s) as [[z'|e] s']; cbn; [reflexivity|].
  discriminate.
Qed.

End WithEnv.

End DlFacts.

(** ** The program on concrete inputs *)

Module Runs.
Import F64Facts GeoFacts DlFacts Frames.
Import Demo FetchDemo.

(** The sample values of the converter. *)
Example decimal_to_dms_samples :
  decimal_to_dms (Finite 0) = Ok (0, 0, 0)
  /\ (n ← py_float (text_of "-74.00306282630127"); decimal_to_dms n)
     = Ok (-74, 0, 11)
  /\ lat_long_decimal_to_dms (text_of "40.7335,-74.0031")
     = Ok ((40, 44, 0), (-74, 0, 11))
  /\ lat_long_decimal_to_dms (text_of "40.73351445015099, -74.00306282630127")
     = Ok ((40, 44, 0), (-74, 0, 11)).
Proof. repeat split; vm_compute; reflexivity. Qed.

(** An untitled photo and one titled [file.jpg] in the same album end
    up in two files, each under a token of its own. *)
Example untitled_photos_do_not_collide :
  let run := download_albums [album ["file"; "file.jpg"]] (path_of_str "d") None w0 in
  run.1 = Ok true
  /\ fs run.2 !! "d/a/0000-0000.jpg" = Some (File body None)
  /\ fs run.2 !! "d/a/0000-0001.jpg" = Some (File body None)
  /\ fs run.2 !! "d/a/file.jpg" = None.
Proof. vm_compute. auto 10. Qed.

(** C1 (failing input).  The target directory is missing:
    [download_albums] returns failure and [main] returns 1, but the
    script exits with status 0, since the guard drops what [main()]
    returns. *)
Lemma script_exit_status_ignores_failure :
  fs w0 !! "missing" = None
  /\ (download_albums [album ["photo"]] (path_of_str "missing") None w0).1 = Ok false
  /\ (main args_missing s0).1 = Ok 1
  /\ (run_script args_missing s0).1 = 0.
Proof. vm_compute. auto. Qed.

(** C2 (failing input).  After a complete first run the file of the
    photo titled [photo] is on disk as [d/a/photo.jpg]; the second run
    probes [d/a/photo], finds nothing and issues the GET again. *)
Lemma rerun_downloads_again :
  let first := download_albums [album ["photo"]] (path_of_str "d") None w0 in
  let second := download_albums [album ["photo"]] (path_of_str "d") None first.2 in
  first.1 = Ok true
  /\ fs first.2 !! "d/a/photo.jpg" = Some (File body None)
  /\ gets first.2 = ["https://host/1"]
  /\ second.1 = Ok true
  /\ gets second.2 = ["https://host/1"; "https://host/1"].
Proof. vm_compute. auto 10. Qed.

(** C3 (failing input).  The sanitized name [photo] holds no dot, yet
    under the target directory [my.dir] the photo is written without
    the [.jpg] suffix, while under [d] it gets it. *)
Lemma suffix_depends_on_directory :
  let dotted := set_fs (fun _ => {[ "my.dir" := Dir ]}) w0 in
  let run := download_albums [album ["photo"]] (path_of_str "my.dir") None dotted in
  let plain := download_albums [album ["photo"]] (path_of_str "d") None w0 in
  has_char "." (sanitize_filename "photo") = false
  /\ fs run.2 !! "my.dir/a/photo" = Some (File body None)
  /\ fs run.2 !! "my.dir/a/photo.jpg" = None
  /\ fs plain.2 !! "d/a/photo.jpg" = Some (File body None).
Proof. vm_compute. auto 10. Qed.

(** C4 (failing input).  The sanitized name [myfile.jpg] is not the
    fallback [file.jpg] but only ends with it; the photo is nevertheless
    written under a name where a fresh token replaces the last eight
    characters. *)
Lemma rename_on_substring :
  let run := download_albums [album ["myfile.jpg"]] (path_of_str "d") None w0 in
  sanitize_filename "myfile.jpg" = "myfile.jpg"
  /\ fs run.2 !! "d/a/myfile.jpg" = None
  /\ fs run.2 !! "d/a/my0000-0000.jpg" = Some (File body None).
Proof. vm_compute. auto 10. Qed.


(** C6 (counterexample).  For [d = -2^-13] the result is [(0, 0, 0)]:
    no component carries the sign.  For [d = 2^50 + 1/4] the
    reconstruction is more than a second away from [d]. *)
Lemma decimal_to_dms_sign_lost :
  decimal_to_dms (Finite (- (1 # 8192))) = Ok (0, 0, 0)
  /\ sign_on_first_nonzero (0, 0, 0) = false
  /\ decimal_to_dms (Finite (2 ^ 50 + (1 # 4))) = Ok (2 ^ 50, 16, 4)
  /\ ~ (Qabs (dms_to_decimal (2 ^ 50, 16, 4)%Z - (2 ^ 50 + (1 # 4))) < 1 # 3600)%Q.
Proof.
  repeat split; try (vm_compute; reflexivity).
  intros H. vm_compute in H. discriminate H.
Qed.

(** C8 (counterexample).  ["nan,0"] is one comma-separated pair of
    strings that [float] accepts, and [lat_long_decimal_to_dms] fails
    on it. *)
Lemma lat_long_nan_fails :
  text_split comma (text_of "nan,0") = [text_of "nan"; text_of "0"]
  /\ py_float (text_of "nan") = Ok NaN
  /\ is_ok (py_float (text_of "0")) = true
  /\ is_ok (lat_long_decimal_to_dms (text_of "nan,0")) = false.
Proof. vm_compute. auto. Qed.

(** C9 (failing input).  The file [d/a/x.jpg] exists, with bytes and a
    date of its own, and it is the path probed for the photo titled
    [x.jpg], which is skipped.  The same call of [download_albums] then
    probes [d/a/x] for the photo titled [x], finds nothing, appends
    [.jpg] and writes that photo over the file: its bytes and its date
    are lost, and the call returns [True]. *)
Lemma skipped_file_overwritten_by_sibling :
  let probed := str (truediv (path_of_str "d/a") (sanitize_filename "x.jpg")) in
  let run := download_albums [album ["x.jpg"; "x"]] (path_of_str "d") None w_old in
  probed = "d/a/x.jpg"
  /\ fs w_old !! probed = Some (File [Byte.x00] (Some "202001010000"))
  /\ run.1 = Ok true
  /\ fs run.2 !! probed = Some (File body None).
Proof. vm_compute. auto 10. Qed.

(** C10 (counterexample).  The binary64 value of [1/3600] lies just
    below one second of arc, and its product with 3600 rounds to [1.0]:
    for [d] the opposite of that value, negative and of magnitude
    strictly less than [1/3600], the result is [(0, 0, -1)] and not
    [(0, 0, 0)]. *)
Remark decimal_to_dms_at_one_second :
  fdiv (of_Z 1) (of_Z 3600) = Finite (5124095576030431 # 18446744073709551616)
  /\ (5124095576030431 # 18446744073709551616 < 1 # 3600)%Q
  /\ decimal_to_dms (Finite (- (5124095576030431 # 18446744073709551616)))
     = Ok (0, 0, -1).
Proof. repeat split; vm_compute; reflexivity. Qed.

Lemma decimal_to_dms_roundtrip_witness :
  exists t,
    decimal_to_dms (Finite (- (18945 # 256))) = Ok t
    /\ (Qabs (dms_to_decimal t - - (18945 # 256)) < 1 # 3600)%Q
    /\ ((- (18945 # 256) <= - (1 # 3600))%Q -> sign_on_first_nonzero t = true).
Proof.
  apply (decimal_to_dms_roundtrip (- (18945 # 256))).
  apply Qle_bool_iff. vm_compute. reflexivity.
Defined.

Lemma decimal_to_dms_below_one_second_witness :
  decimal_to_dms (Finite (- (1 # 8192))) = Ok (0, 0, 0).
Proof.
  apply (decimal_to_dms_below_one_second (- (1 # 8192))).
  - vm_compute. reflexivity.
  - reflexivity.
  - vm_compute. reflexivity.
Defined.

Lemma skip_existing_is_frame_witness :
  exists w',
    download_photo (Some ((40, 44, 0), (-74, 0, 11))) (path_of_str "d/a")
      (photo "x.jpg") w_old = (Ok tt, w')
    /\ fs w' = fs w_old /\ gets w' = gets w_old /\ uuids w' = uuids w_old
    /\ level w' = level w_old.
Proof.
  apply (skip_existing_is_frame (Some ((40, 44, 0), (-74, 0, 11)))
           (path_of_str "d/a") (photo "x.jpg") w_old).
  vm_compute. eauto.
Defined.



(** A library that refuses with a [RuntimeError] when it is asked for
    the bytes of the tagged image: the warning is logged, but the file,
    reopened for writing before the bytes were asked for, is empty. *)
Example late_refusal_empties_file :
  let run := @download_photo Strict.late_env (Some new_york) (path_of_str "d/a")
               (photo "x.jpg") w_album in
  @http_get Strict.late_env "https://host/1" = Ok {| content := body; broken := None |}
  /\ run.1 = Ok tt
  /\ log run.2 = [(INFO, "> Downloading image: d/a/x.jpg");
                  (WARNING, "Unable to store EXIF data: cannot pack the tags")]
  /\ fs run.2 !! "d/a/x.jpg" = Some (File [] None).
Proof. vm_compute. auto. Qed.

(** The two outcomes of the tagging step on the sample library: a JPEG
    gets the four tags, with [N] and [W] next to a negative longitude; a
    file the library rejects is kept as downloaded and a warning is
    logged. *)
Example gps_tags_on_sample_library :
  let tagged := download_photo (Some new_york) (path_of_str "d/a") (photo "x.jpg") w_album in
  let kept := download_photo (Some new_york) (path_of_str "d/a") gif w_album in
  match tagged_image body new_york with
  | Ok img =>
      tags img
      = [ (gps_latitude, DmsValue (40, 44, 0)); (gps_latitude_ref, StrValue "N");
          (gps_longitude, DmsValue (-74, 0, 11)); (gps_longitude_ref, StrValue "W") ]
      /\ exists out, exif_get_file img = Ok out
           /\ fs tagged.2 !! "d/a/x.jpg" = Some (File out None)
  | Raise _ => False
  end
  /\ fs kept.2 !! "d/a/z.gif"
     = Some (File [Byte.x47; Byte.x49; Byte.x46] (Some "202103040506"))
  /\ log kept.2 = [ (INFO, "> Downloading image: d/a/z.gif");
                    (WARNING, "Unable to store EXIF data: not a JPEG") ].
Proof.
  repeat split; try (vm_compute; reflexivity).
  eexists. split; vm_compute; reflexivity.
Qed.

End Runs.

(** ** What the downloader keeps *)

Module FrameFacts.
Import DlFacts Frames.

Section Keeps.
Context `{Env}.
Variable R : world -> world -> Prop.
Hypothesis R_refl : forall w, R w w.
Hypothesis R_trans : forall a b c, R a b -> R b c -> R a c.

Lemma keeps_ret {A} (a : A) : keeps R (mret a).
Proof. intros w. apply R_refl. Qed.

Lemma keeps_lift {A} (r : result A) : keeps R (lift r).
Proof. intros w. apply R_refl. Qed.

Lemma keeps_bind {A B} (m : M A) (k : A -> M B) :
  keeps R m -> (forall a, keeps R (k a)) -> keeps R (m ≫= k).
Proof.
  intros Hm Hk w. unfold mbind, M_bind. specialize (Hm w).
  destruct (m w) as [[a|e] w1]; cbn in *; [|exact Hm].
  eapply R_trans; [exact Hm|apply Hk].
Qed.

Lemma keeps_for_each {A} (l : list A) (body : A -> M unit) :
  (forall x, keeps R (body x)) -> keeps R (for_each l body).
Proof.
  intros Hb. induction l as [|x l IH]; cbn [for_each].
  - apply keeps_ret.
  - apply keeps_bind; [apply Hb|intros _; exact IH].
Qed.

Lemma keeps_try body handler :
  keeps R body -> (forall e, keeps R (handler e)) ->
  keeps R (try_except_RuntimeError body handler).
Proof.
  intros Hb Hh w. unfold try_except_RuntimeError. specialize (Hb w).
  destruct (body w) as [[[]|e] w1]; cbn in *; [exact Hb|].
  destruct (is_RuntimeError e); cbn; [|exact Hb].
  eapply R_trans; [exact Hb|apply Hh].
Qed.

End Keeps.

Lemma kinds_kept_refl w : kinds_kept w w.
Proof. intros p. destruct (fs w !! p) as [[|d t]|]; eauto. Qed.

Lemma kinds_kept_trans a b c : kinds_kept a b -> kinds_kept b c -> kinds_kept a c.
Proof.
  intros Hab Hbc p. specialize (Hab p). specialize (Hbc p).
  destruct (fs a !! p) as [[|d t]|]; [| |exact I].
  - rewrite Hab in Hbc. exact Hbc.
  - destruct Hab as (d' & t' & Hab). rewrite Hab in Hbc. exact Hbc.
Qed.

Lemma kinds_kept_fs w w' : fs w' = fs w -> kinds_kept w w'.
Proof. intros Hfs p. rewrite Hfs. apply kinds_kept_refl. Qed.

Lemma same_but_fs name w w' : fs w' = fs w -> same_but name w w'.
Proof. intros Hfs p _. rewrite Hfs. reflexivity. Qed.

Lemma same_but_refl name w : same_but name w w.
Proof. intros p _. reflexivity. Qed.

Lemma same_but_trans name a b c :
  same_but name a b -> same_but name b c -> same_but name a c.
Proof. intros Hab Hbc p Hp. rewrite Hbc, Hab by exact Hp. reflexivity. Qed.

Lemma offline_refl w : offline w w.
Proof. split; reflexivity. Qed.

Lemma offline_trans a b c : offline a b -> offline b c -> offline a c.
Proof. intros [? ?] [? ?]. split; congruence. Qed.

Ltac order :=
  try exact kinds_kept_refl; try exact kinds_kept_trans; try exact kinds_kept_fs;
  try exact (same_but_refl _); try exact (same_but_trans _);
  try exact (same_but_fs _);
  try exact offline_refl; try exact offline_trans.

(** Putting a node at [p] keeps the kinds when it has the kind of what
    was there. *)
Lemma kinds_kept_insert w p n :
  match fs w !! p with
  | Some Dir => n = Dir
  | Some (File _ _) => exists data mt, n = File data mt
  | None => True
  end ->
  kinds_kept w (set_fs <[p := n]> w).
Proof.
  intros Hn q. cbn. destruct (decide (q = p)) as [->|Hq].
  - rewrite lookup_insert_eq.
    destruct (fs w !! p) as [[|d t]|]; [congruence| |exact I].
    destruct Hn as (d' & t' & ->). eauto.
  - rewrite lookup_insert_ne by congruence.
    destruct (fs w !! q) as [[|d t]|]; eauto.
Qed.

Lemma same_but_insert w p n : same_but p w (set_fs <[p := n]> w).
Proof. intros q Hq. cbn. apply lookup_insert_ne. congruence. Qed.

Section WithEnv.
Context `{Env}.

(** *** What each operation keeps *)

Lemma logging_same_fs l msg w : fs (logging l msg w).2 = fs w.
Proof. unfold logging. destruct (_ <=? _); reflexivity. Qed.

Lemma logging_kinds l msg : keeps kinds_kept (logging l msg).
Proof.
  intros w p. rewrite logging_same_fs. apply kinds_kept_refl.
Qed.

Lemma logging_same_but name l msg : keeps (same_but name) (logging l msg).
Proof. intros w p _. rewrite logging_same_fs. reflexivity. Qed.

Lemma logging_offline l msg : keeps offline (logging l msg).
Proof. intros w. unfold logging. destruct (_ <=? _); split; reflexivity. Qed.

Lemma mkdir_kinds p : keeps kinds_kept (mkdir_exist_ok p).
Proof.
  intros w. unfold mkdir_exist_ok.
  destruct (fs w !! p) as [[|d t]|] eqn:E; cbn; try apply kinds_kept_refl.
  destruct (parent_error (fs w) p); cbn; [apply kinds_kept_refl|].
  apply kinds_kept_insert. rewrite E. exact I.
Qed.

Lemma open_wb_kinds p : keeps kinds_kept (open_wb p).
Proof.
  intros w. unfold open_wb, open_error.
  destruct (fs w !! p) as [[|d t]|] eqn:E; cbn; try apply kinds_kept_refl.
  - apply kinds_kept_insert. rewrite E. eauto.
  - destruct (parent_error (fs w) p); cbn; [apply kinds_kept_refl|].
    apply kinds_kept_insert. rewrite E. exact I.
Qed.

Lemma open_wb_same_but p : keeps (same_but p) (open_wb p).
Proof.
  intros w. unfold open_wb. destruct (open_error (fs w) p); cbn;
    [apply same_but_refl|apply same_but_insert].
Qed.

Lemma write_kinds p chunk : keeps kinds_kept (write p chunk).
Proof.
  intros w. unfold write.
  destruct (fs w !! p) as [[|d t]|] eqn:E; cbn; try apply kinds_kept_refl.
  apply kinds_kept_insert. rewrite E. eauto.
Qed.

Lemma write_same_but p chunk : keeps (same_but p) (write p chunk).
Proof.
  intros w. unfold write.
  destruct (fs w !! p) as [[|d t]|]; cbn;
    try apply same_but_refl. apply same_but_insert.
Qed.

Lemma read_rb_same p w : (read_rb p w).2 = w.
Proof. unfold read_rb. destruct (fs w !! p) as [[|d t]|]; reflexivity. Qed.

Lemma touch_kinds stamp p : keeps kinds_kept (touch_mt stamp p).
Proof.
  intros w. unfold touch_mt. destruct has_touch; cbn; [|apply kinds_kept_refl].
  destruct (_ || _); [apply kinds_kept_refl|].
  destruct (fs w !! p) as [[|d t]|] eqn:E; try apply kinds_kept_refl.
  - apply kinds_kept_insert. rewrite E. eauto.
  - destruct (parent_error (fs w) p); [apply kinds_kept_refl|].
    apply kinds_kept_insert. rewrite E. exact I.
Qed.

Lemma touch_same_but stamp p : keeps (same_but p) (touch_mt stamp p).
Proof.
  intros w. unfold touch_mt. destruct has_touch; cbn; [|apply same_but_refl].
  destruct (_ || _); [apply same_but_refl|].
  destruct (fs w !! p) as [[|d t]|]; try apply same_but_refl.
  - apply same_but_insert.
  - destruct (parent_error (fs w) p); [apply same_but_refl|apply same_but_insert].
Qed.

Lemma touch_offline stamp p : keeps offline (touch_mt stamp p).
Proof.
  intros w. unfold touch_mt. destruct has_touch; cbn; [|apply offline_refl].
  destruct (_ || _); [apply offline_refl|].
  destruct (fs w !! p) as [[|d t]|]; try apply offline_refl.
  - split; reflexivity.
  - destruct (parent_error (fs w) p); [apply offline_refl|split; reflexivity].
Qed.

(** A relation on the file system alone holds of the steps that leave
    the file system alone. *)
Lemma requests_get_same_fs u w : fs (requests_get u w).2 = fs w.
Proof. reflexivity. Qed.

Lemma written_name_same_fs f w : fs (written_name f w).2 = fs w.
Proof.
  destruct (written_name_frame f w) as (name & w1 & -> & Hfs & _). exact Hfs.
Qed.

Section Photo.
Variable R : world -> world -> Prop.
Hypothesis R_refl : forall w, R w w.
Hypothesis R_trans : forall a b c, R a b -> R b c -> R a c.
Variable name : string.
Hypothesis R_log : forall l msg, keeps R (logging l msg).
Hypothesis R_get : forall u, keeps R (requests_get u).
Hypothesis R_open : keeps R (open_wb name).
Hypothesis R_write : forall chunk, keeps R (write name chunk).
Hypothesis R_touch : forall stamp, keeps R (touch_mt stamp name).

Lemma save_keeps (req : response) : keeps R (save name req).
Proof.
  unfold save. apply keeps_bind; auto. intros _.
  apply keeps_bind; auto.
  { apply keeps_for_each; auto. }
  intros _. destruct (broken req); [apply keeps_lift|apply keeps_ret]; auto.
Qed.

Lemma fetch_keeps u : keeps R (fetch name u).
Proof.
  unfold fetch. apply keeps_bind; auto. intros _.
  apply keeps_bind; auto. intros req. apply save_keeps.
Qed.

Lemma store_exif_keeps c : keeps R (store_exif name c).
Proof.
  unfold store_exif. apply keeps_bind; auto.
  { intros w. rewrite read_rb_same. apply R_refl. }
  intros data. apply keeps_bind; auto.
  intros image. apply keeps_bind; auto. intros _.
  apply keeps_bind; auto.
Qed.

Lemma tag_keeps c : keeps R (tag c name).
Proof.
  unfold tag. destruct c as [c|]; [|apply keeps_ret; auto].
  apply keeps_try; auto. apply store_exif_keeps.
Qed.

Lemma stamp_keeps photo : keeps R (stamp photo name).
Proof.
  unfold stamp. destruct (capture_date photo); [apply R_touch|apply keeps_ret; auto].
Qed.

(** What follows the request, to the end of the iteration. *)
Lemma finish_keeps c photo (req : response) :
  keeps R (save name req;; tag c name;; stamp photo name).
Proof.
  apply keeps_bind; auto; [apply save_keeps|]. intros _.
  apply keeps_bind; auto; [apply tag_keeps|]. intros _. apply stamp_keeps.
Qed.

Lemma transfer_keeps c photo :
  keeps R (fetch name (url photo);; tag c name;; stamp photo name).
Proof.
  apply keeps_bind; auto; [apply fetch_keeps|]. intros _.
  apply keeps_bind; auto; [apply tag_keeps|]. intros _. apply stamp_keeps.
Qed.

End Photo.

Lemma bind_assoc {A B C} (m : M A) (k1 : A -> M B) (k2 : B -> M C) w :
  ((m ≫= k1) ≫= k2) w = (m ≫= fun a => k1 a ≫= k2) w.
Proof. unfold mbind, M_bind. destruct (m w) as [[a|e] w1]; reflexivity. Qed.

(** The iteration of a photo that is not skipped: the record, the
    request, and then the rest unless the request fails. *)
Lemma transfer_unfold c photo name w :
  (fetch name (url photo);; tag c name;; stamp photo name) w
  = let w1 := requested (url photo)
                (logging INFO ("> Downloading image: " +:+ name) w).2 in
    match http_get (url photo) with
    | Ok req => (save name req;; tag c name;; stamp photo name) w1
    | Raise e => (Raise e, w1)
    end.
Proof.
  unfold fetch. rewrite bind_assoc. unfold mbind at 1, M_bind at 1.
  destruct (logging_frame INFO ("> Downloading image: " +:+ name) w) as (w1 & -> & _).
  rewrite bind_assoc. unfold mbind at 1, M_bind at 1, requests_get at 1.
  cbn [snd]. fold (requested (url photo) w1).
  destruct (http_get (url photo)); reflexivity.
Qed.

(** One iteration, from the name that is written. *)
Lemma download_photo_unfold c gp photo w :
  download_photo c gp photo w
  = match fs w !! probed gp photo with
    | Some _ =>
        logging DEBUG
          ("> " +:+ probed gp photo +:+ " exists already, so skipping download") w
    | None =>
        let '(name, w1) :=
          match written_name (probed gp photo) w with
          | (Ok name, w1) => (name, w1)
          | (Raise _, w1) => (probed gp photo, w1)
          end in
        (fetch name (url photo);; tag c name;; stamp photo name) w1
    end.
Proof.
  unfold download_photo, download_file, probed, mbind at 1, M_bind at 1, exists_.
  destruct (fs w !! _); [reflexivity|].
  unfold mbind at 1, M_bind at 1.
  destruct (written_name_frame (str (truediv gp (sanitize_filename (title photo)))) w)
    as (name & w1 & -> & _). reflexivity.
Qed.

Lemma download_photo_kinds c gp photo : keeps kinds_kept (download_photo c gp photo).
Proof.
  intros w. rewrite download_photo_unfold.
  destruct (fs w !! probed gp photo); [apply logging_kinds|].
  destruct (written_name_frame (probed gp photo) w) as (name & w1 & Hn & Hfs & _).
  rewrite Hn. apply kinds_kept_trans with w1.
  { apply kinds_kept_fs, Hfs. }
  apply transfer_keeps; order.
  - apply logging_kinds.
  - intros u w2. apply kinds_kept_fs. reflexivity.
  - apply open_wb_kinds.
  - intros chunk. apply write_kinds.
  - intros stamp. apply touch_kinds.
Qed.

Lemma download_album_kinds c dir album : keeps kinds_kept (download_album c dir album).
Proof.
  unfold download_album.
  apply keeps_bind; order; [apply logging_kinds|]. intros _.
  apply keeps_bind; order; [apply mkdir_kinds|]. intros _.
  apply keeps_for_each; order. apply download_photo_kinds.
Qed.

Lemma download_albums_kinds albums dir c : keeps kinds_kept (download_albums albums dir c).
Proof.
  unfold download_albums.
  apply keeps_bind; order.
  intros ok. destruct (negb ok).
  - apply keeps_bind; order; [apply logging_kinds|].
    intros _. apply keeps_ret; order.
  - apply keeps_bind; order.
    + apply keeps_for_each; order. apply download_album_kinds.
    + intros _. apply keeps_ret; order.
Qed.

(** *** Paths *)

Lemma download_photo_same_but c gp photo w name w1 :
  written_name (probed gp photo) w = (Ok name, w1) ->
  same_but name w (download_photo c gp photo w).2.
Proof.
  intros Hn. rewrite download_photo_unfold.
  destruct (fs w !! probed gp photo).
  { apply same_but_fs, logging_same_fs. }
  rewrite Hn.
  destruct (written_name_frame (probed gp photo) w) as (name' & w1' & Hn' & Hfs & _).
  rewrite Hn in Hn'. injection Hn' as <- <-.
  apply same_but_trans with w1; [apply same_but_fs, Hfs|].
  apply transfer_keeps; order.
  - intros l msg w2. apply same_but_fs, logging_same_fs.
  - intros u w2. apply same_but_fs. reflexivity.
  - apply open_wb_same_but.
  - intros chunk. apply write_same_but.
  - intros stamp. apply touch_same_but.
Qed.

(** X1.  One iteration of the inner loop changes the file system at
    most at the name it writes under: every other path holds after the
    iteration what it held before, whether the iteration returns or
    raises. *)
Theorem download_photo_touches_one_path c gp photo w name w1 p :
  written_name (probed gp photo) w = (Ok name, w1) ->
  p <> name ->
  fs (download_photo c gp photo w).2 !! p = fs w !! p.
Proof.
  intros Hn Hp. apply (download_photo_same_but c gp photo w name w1 Hn p Hp).
Qed.

(** X2.  [download_albums] never removes a path and never replaces a
    directory by a file or a file by a directory, whatever the albums
    and whether it returns or raises. *)
Theorem download_albums_never_deletes albums dir c w p :
  match fs w !! p with
  | Some Dir => fs (download_albums albums dir c w).2 !! p = Some Dir
  | Some (File _ _) =>
      exists data mt, fs (download_albums albums dir c w).2 !! p = Some (File data mt)
  | None => True
  end.
Proof. apply download_albums_kinds. Qed.

(** *** Requests *)

Lemma open_wb_offline p : keeps offline (open_wb p).
Proof.
  intros w. unfold open_wb. destruct (open_error (fs w) p); split; reflexivity.
Qed.

Lemma write_offline p chunk : keeps offline (write p chunk).
Proof.
  intros w. unfold write. destruct (fs w !! p) as [[|d t]|]; split; reflexivity.
Qed.

Lemma mkdir_offline p : keeps offline (mkdir_exist_ok p).
Proof.
  intros w. unfold mkdir_exist_ok. destruct (fs w !! p) as [[|d t]|];
    try (split; reflexivity).
  destruct (parent_error (fs w) p); split; reflexivity.
Qed.

(** A photo whose probed path is missing costs exactly one request,
    and at most one token, drawn before the request. *)
Lemma download_photo_absent c gp photo w :
  fs w !! probed gp photo = None ->
  gets (download_photo c gp photo w).2 = gets w ++ [url photo]
  /\ (uuids w <= uuids (download_photo c gp photo w).2 <= S (uuids w))%nat.
Proof.
  intros Hp. rewrite download_photo_unfold, Hp.
  assert (Hname : exists name w1,
    written_name (probed gp photo) w = (Ok name, w1)
    /\ gets w1 = gets w /\ (uuids w <= uuids w1 <= S (uuids w))%nat).
  { unfold written_name, mbind, M_bind, uuid_uuid4, mret, M_ret.
    destruct (contains "file.jpg" _); do 2 eexists; (split; [reflexivity|]);
      cbn; split; auto; lia. }
  destruct Hname as (name & w1 & -> & Hg1 & Hu1). rewrite transfer_unfold.
  destruct (logging_offline INFO ("> Downloading image: " +:+ name) w1) as [Hg2 Hu2].
  cbv zeta. destruct (http_get (url photo)) as [req|e].
  - destruct (finish_keeps offline offline_refl offline_trans name
                logging_offline (open_wb_offline name) (write_offline name)
                (fun s => touch_offline s name) c photo req
                (requested (url photo)
                   (logging INFO ("> Downloading image: " +:+ name) w1).2))
      as [-> ->].
    unfold requested. cbn [gets uuids]. rewrite Hg2, Hu2, Hg1.
    split; [reflexivity|lia].
  - unfold requested. cbn [gets uuids snd]. rewrite Hg2, Hu2, Hg1.
    split; [reflexivity|lia].
Qed.

Lemma download_photo_requests c gp photo w :
  exists l,
    gets (download_photo c gp photo w).2 = gets w ++ l
    /\ sublist l [url photo]
    /\ (uuids w <= uuids (download_photo c gp photo w).2 <= uuids w + length l)%nat.
Proof.
  destruct (fs w !! probed gp photo) as [n|] eqn:Ep.
  - exists []. rewrite download_photo_unfold, Ep.
    destruct (logging_offline DEBUG
      ("> " +:+ probed gp photo +:+ " exists already, so skipping download") w)
      as [-> ->].
    rewrite app_nil_r. split; [reflexivity|]. split; [apply sublist_nil_l|cbn; lia].
  - exists [url photo]. destruct (download_photo_absent c gp photo w Ep) as [-> Hu].
    split; [reflexivity|]. split; [reflexivity|cbn; lia].
Qed.

Lemma for_each_requests {A} (body : A -> M unit) (cost : A -> list string) l :
  (forall x w, exists k,
      gets (body x w).2 = gets w ++ k /\ sublist k (cost x)
      /\ (uuids w <= uuids (body x w).2 <= uuids w + length k)%nat) ->
  forall w, exists k,
    gets (for_each l body w).2 = gets w ++ k
    /\ sublist k (concat (map cost l))
    /\ (uuids w <= uuids (for_each l body w).2 <= uuids w + length k)%nat.
Proof.
  intros Hb. induction l as [|x l IH]; intros w; cbn [for_each map concat].
  - exists []. cbn. rewrite app_nil_r. repeat split; auto; lia.
  - unfold mbind, M_bind. destruct (Hb x w) as (k1 & Hg1 & Hs1 & Hu1).
    destruct (body x w) as [[[]|e] w1]; cbn in *.
    + destruct (IH w1) as (k2 & Hg2 & Hs2 & Hu2).
      exists (k1 ++ k2). rewrite Hg2, Hg1, <- app_assoc, length_app.
      split; [reflexivity|]. split; [apply sublist_app; assumption|lia].
    + exists k1. split; [exact Hg1|]. split; [|lia].
      apply sublist_inserts_r. exact Hs1.
Qed.

Lemma download_album_requests c dir album w :
  exists l,
    gets (download_album c dir album w).2 = gets w ++ l
    /\ sublist l (map url (photos album))
    /\ (uuids w <= uuids (download_album c dir album w).2 <= uuids w + length l)%nat.
Proof.
  destruct (download_album c dir album w) as [r w'] eqn:Er. cbn [snd].
  unfold download_album in Er. unfold mbind at 1, M_bind at 1 in Er.
  destruct (logging_frame INFO ("Downloading album: " +:+ album_title album) w)
    as (w1 & Hlog & _ & Hg1 & _ & Hu1).
  rewrite Hlog in Er. unfold mbind at 1, M_bind at 1 in Er.
  pose proof (mkdir_offline (album_dir dir album) w1) as [Hg2 Hu2].
  unfold album_dir in Hg2, Hu2.
  destruct (mkdir_exist_ok _ w1) as [[[]|e] w2]; cbn [snd] in *.
  - destruct (for_each_requests
                (download_photo c
                   (truediv dir
                      (sanitize_filepath (replace_char "/" " " (album_title album)))))
                (fun photo => [url photo]) (photos album)
                (fun photo w => download_photo_requests c _ photo w) w2)
      as (k & Hg & Hs & Hu).
    rewrite Er in Hg, Hu. cbn [snd] in Hg, Hu.
    exists k. rewrite Hg, Hg2, Hg1. split; [reflexivity|]. split; [|lia].
    replace (map url (photos album))
      with (concat (map (fun photo => [url photo]) (photos album))); [exact Hs|].
    clear. induction (photos album) as [|x l IH]; cbn; congruence.
  - injection Er as <- <-.
    exists []. rewrite app_nil_r, Hg2, Hg1. split; [reflexivity|].
    split; [apply sublist_nil_l|cbn; lia].
Qed.

(** X3.  The GET requests of a run are made for photos of the given
    albums, in the order of the albums and of their photos, at most one
    per photo; and at most one token is drawn per request.  This holds
    whether the run returns or raises. *)
Theorem download_albums_requests albums dir c w :
  exists l,
    gets (download_albums albums dir c w).2 = gets w ++ l
    /\ sublist l (urls albums)
    /\ (uuids w <= uuids (download_albums albums dir c w).2 <= uuids w + length l)%nat.
Proof.
  destruct (download_albums albums dir c w) as [r w'] eqn:Er. cbn [snd].
  unfold download_albums, mbind at 1, M_bind at 1, is_dir in Er.
  destruct (negb _).
  - unfold mbind, M_bind in Er.
    destruct (logging_frame ERROR
                ("Does not exist or is not a directory: " +:+ str dir) w)
      as (w1 & Hlog & _ & Hg & _ & Hu).
    rewrite Hlog in Er. injection Er as <- <-.
    exists []. cbn. rewrite app_nil_r, Hg, Hu. split; [reflexivity|].
    split; [apply sublist_nil_l|lia].
  - destruct (for_each_requests (download_album c dir)
                (fun album => map url (photos album)) albums
                (download_album_requests c dir) w) as (k & Hg & Hs & Hu).
    exists k. unfold mbind, M_bind in Er.
    destruct (for_each albums (download_album c dir) w) as [[[]|e] w1];
      injection Er as <- <-; cbn in *; auto.
Qed.

(** *** Files *)

Lemma tag_kinds c name : keeps kinds_kept (tag c name).
Proof.
  apply tag_keeps; order;
    [apply logging_kinds|apply open_wb_kinds|intros chunk; apply write_kinds].
Qed.

Lemma stamp_kinds photo name : keeps kinds_kept (stamp photo name).
Proof. apply stamp_keeps; order. intros s. apply touch_kinds. Qed.

Lemma save_result name req w :
  open_error (fs w) name = None ->
  save name req w
  = (match broken req with Some e => Raise e | None => Ok tt end,
     set_fs <[name := File (content req) None]> w).
Proof.
  intros Hdir. unfold save, mbind, M_bind, open_wb. rewrite Hdir.
  rewrite for_each_write with (data := []) by (cbn; apply lookup_insert_eq).
  unfold set_fs. cbn. rewrite insert_insert_eq.
  rewrite iter_content_concat by (cbn; lia).
  destruct (broken req); reflexivity.
Qed.

(** The iteration of a photo whose probed path is missing and whose
    request is answered. *)
Lemma download_photo_answered c gp photo w name w1 req :
  fs w !! probed gp photo = None ->
  written_name (probed gp photo) w = (Ok name, w1) ->
  http_get (url photo) = Ok req ->
  open_error (fs w) name = None ->
  exists w2,
    fs w2 = <[name := File (content req) None]> (fs w)
    /\ download_photo c gp photo w
       = match broken req with
         | Some e => (Raise e, w2)
         | None => (tag c name;; stamp photo name) w2
         end.
Proof.
  intros Hp Hn Hget Hdir. rewrite download_photo_unfold, Hp, Hn, transfer_unfold, Hget.
  destruct (written_name_frame (probed gp photo) w) as (name' & w1' & Hn' & Hfs1 & _).
  rewrite Hn in Hn'. injection Hn' as <- <-. cbv zeta.
  unfold mbind at 1, M_bind at 1. rewrite save_result.
  - eexists. split; [|destruct (broken req); reflexivity].
    unfold set_fs, requested. cbn [fs]. rewrite logging_same_fs, Hfs1. reflexivity.
  - unfold requested. cbn [fs]. rewrite logging_same_fs, Hfs1. exact Hdir.
Qed.

(** X4.  Without a coordinate override, a photo that is not skipped and
    whose stream arrives whole is stored byte for byte.  When it has a
    capture date, its modification time is set to that date rendered as
    [%Y%m%d%H%M], the year as the C library renders it, provided the
    name does not start with a dash, which [touch] would read as
    options, and [touch] accepts the stamp; in every other case no date
    is set. *)
Theorem download_photo_stores_body gp photo w name w1 body :
  fs w !! probed gp photo = None ->
  written_name (probed gp photo) w = (Ok name, w1) ->
  http_get (url photo) = Ok {| content := body; broken := None |} ->
  open_error (fs w) name = None ->
  has_touch = true ->
  (download_photo None gp photo w).1 = Ok tt
  /\ fs (download_photo None gp photo w).2
     = <[name := File body (stamped name (capture_date photo))]> (fs w).
Proof.
  intros Hp Hn Hget Hdir Htouch.
  destruct (download_photo_answered None gp photo w name w1 _ Hp Hn Hget Hdir)
    as (w2 & Hfs2 & ->).
  cbn [broken content] in *.
  unfold tag, stamp, stamped, mbind, M_bind, mret, M_ret.
  destruct (capture_date photo) as [d|]; [|auto].
  unfold touch_mt. rewrite Htouch.
  destruct (String.prefix "-" name || negb (touch_accepts (strftime_YmdHM d)));
    cbn [fst snd]; [auto|].
  rewrite Hfs2, lookup_insert_eq. cbn. rewrite Hfs2, insert_insert_eq. auto.
Qed.

(** X5.  When the stream of a photo breaks, the iteration raises the
    error of the stream and leaves behind a file holding the bytes that
    had arrived; no tag is stored and no date is set, whatever the
    coordinate and the capture date. *)
Theorem broken_stream_leaves_partial_file c gp photo w name w1 part e :
  fs w !! probed gp photo = None ->
  written_name (probed gp photo) w = (Ok name, w1) ->
  http_get (url photo) = Ok {| content := part; broken := Some e |} ->
  open_error (fs w) name = None ->
  (download_photo c gp photo w).1 = Raise e
  /\ fs (download_photo c gp photo w).2 = <[name := File part None]> (fs w).
Proof.
  intros Hp Hn Hget Hdir.
  destruct (download_photo_answered c gp photo w name w1 _ Hp Hn Hget Hdir)
    as (w2 & Hfs2 & ->).
  cbn. auto.
Qed.

Lemma written_name_plain f w :
  contains "." f = true -> contains "file.jpg" f = false ->
  written_name f w = (Ok f, w).
Proof. intros Hd Hf. unfold written_name. rewrite Hd. cbn [negb]. rewrite Hf. reflexivity. Qed.

(** X6.  Take a photo whose probed path has a dot and does not contain
    [file.jpg], so that it is written under the probed path itself.
    Once its request has been answered, a file sits at that path,
    whether the stream arrived whole or broke and whatever happened to
    the tags and the date; and the next iteration for the same photo
    passes it over: no request, no change to the file system. *)
Theorem answered_photo_is_skipped_next c gp photo w req :
  fs w !! probed gp photo = None ->
  contains "." (probed gp photo) = true ->
  contains "file.jpg" (probed gp photo) = false ->
  http_get (url photo) = Ok req ->
  open_error (fs w) (probed gp photo) = None ->
  (exists data mt,
     fs (download_photo c gp photo w).2 !! probed gp photo = Some (File data mt))
  /\ fs (download_photo c gp photo (download_photo c gp photo w).2).2
     = fs (download_photo c gp photo w).2
  /\ gets (download_photo c gp photo (download_photo c gp photo w).2).2
     = gets (download_photo c gp photo w).2.
Proof.
  intros Hp Hdot Hfile Hget Hdir.
  assert (Hthere : exists data mt,
    fs (download_photo c gp photo w).2 !! probed gp photo = Some (File data mt)).
  { destruct (download_photo_answered c gp photo w (probed gp photo) w req Hp
                (written_name_plain _ w Hdot Hfile) Hget Hdir) as (w2 & Hfs2 & ->).
    assert (Hw2 : fs w2 !! probed gp photo = Some (File (content req) None)).
    { rewrite Hfs2. apply lookup_insert_eq. }
    destruct (broken req); [cbn; eauto|].
    pose proof (keeps_bind kinds_kept kinds_kept_trans
                  (tag c (probed gp photo))
                  (fun _ => stamp photo (probed gp photo))
                  (tag_kinds c _) (fun _ => stamp_kinds photo _) w2
                  (probed gp photo)) as Hk.
    rewrite Hw2 in Hk. exact Hk. }
  split; [exact Hthere|]. destruct Hthere as (data & mt & Hthere).
  rewrite (skip_step c gp photo (download_photo c gp photo w).2)
    by (unfold probed in Hthere; rewrite Hthere; eauto).
  destruct (logging_frame DEBUG
              ("> " +:+ str (truediv gp (sanitize_filename (title photo)))
               +:+ " exists already, so skipping download")
              (download_photo c gp photo w).2) as (w3 & -> & Hfs3 & Hg3 & _).
  auto.
Qed.

Lemma contains_append n a b : contains n b = true -> contains n (a +:+ b) = true.
Proof.
  intros Hb. induction a as [|ch a IH]; [exact Hb|].
  change (String ch a +:+ b) with (String ch (a +:+ b)). cbn [contains].
  rewrite IH. apply orb_true_r.
Qed.

(** Whatever the probed path, the name written under has a dot. *)
Lemma written_name_has_dot f w name w1 :
  written_name f w = (Ok name, w1) -> contains "." name = true.
Proof.
  unfold written_name, mbind, M_bind, uuid_uuid4, mret, M_ret.
  assert (Hdot : contains "."
            (if negb (contains "." f) then f +:+ ".jpg" else f) = true).
  { destruct (contains "." f) eqn:E; cbn [negb]; [exact E|].
    apply contains_append. reflexivity. }
  destruct (contains "file.jpg" _).
  - intros [= <- _]. do 2 apply contains_append. reflexivity.
  - intros [= <- _]. exact Hdot.
Qed.

(** X7.  A photo whose probed path has no dot is never written under
    the path that is probed: after its iteration that path is still
    missing, so the next iteration for the same photo requests it
    again. *)
Theorem dotless_photo_is_fetched_again c gp photo w :
  contains "." (probed gp photo) = false ->
  fs w !! probed gp photo = None ->
  fs (download_photo c gp photo w).2 !! probed gp photo = None
  /\ gets (download_photo c gp photo (download_photo c gp photo w).2).2
     = gets w ++ [url photo; url photo].
Proof.
  intros Hdot Hp.
  destruct (written_name_frame (probed gp photo) w) as (name & w1 & Hn & _).
  assert (Hne : probed gp photo <> name).
  { intros E. rewrite <- E in Hn. apply written_name_has_dot in Hn. congruence. }
  assert (Hstill : fs (download_photo c gp photo w).2 !! probed gp photo = None).
  { rewrite (download_photo_same_but c gp photo w name w1 Hn _ Hne). exact Hp. }
  split; [exact Hstill|].
  destruct (download_photo_absent c gp photo _ Hstill) as [-> _].
  destruct (download_photo_absent c gp photo w Hp) as [-> _].
  rewrite <- app_assoc. reflexivity.
Qed.

(** *** Directories *)

Lemma mkdir_ok p w w' : mkdir_exist_ok p w = (Ok tt, w') -> fs w' !! p = Some Dir.
Proof.
  unfold mkdir_exist_ok. destruct (fs w !! p) as [[|d t]|] eqn:E.
  - intros [= <-]. exact E.
  - discriminate.
  - destruct (parent_error (fs w) p); [discriminate|].
    intros [= <-]. cbn. apply lookup_insert_eq.
Qed.

Lemma download_album_ok_dir c dir album w w' :
  download_album c dir album w = (Ok tt, w') ->
  fs w' !! album_dir dir album = Some Dir.
Proof.
  unfold download_album. unfold mbind at 1, M_bind at 1.
  destruct (logging_frame INFO ("Downloading album: " +:+ album_title album) w)
    as (w1 & -> & _).
  unfold mbind at 1, M_bind at 1. fold (album_dir dir album).
  destruct (mkdir_exist_ok (album_dir dir album) w1) as [[[]|e] w2] eqn:Em;
    [|discriminate].
  apply mkdir_ok in Em. intros Hloop.
  pose proof (keeps_for_each kinds_kept kinds_kept_refl kinds_kept_trans
                (photos album)
                (download_photo c
                   (truediv dir
                      (sanitize_filepath (replace_char "/" " " (album_title album)))))
                (download_photo_kinds c _) w2 (album_dir dir album)) as Hk.
  rewrite Em, Hloop in Hk. exact Hk.
Qed.

Lemma albums_loop_dirs c dir albums w w' :
  for_each albums (download_album c dir) w = (Ok tt, w') ->
  Forall (fun album => fs w' !! album_dir dir album = Some Dir) albums.
Proof.
  revert w. induction albums as [|album albums IH]; intros w; cbn [for_each].
  - constructor.
  - unfold mbind, M_bind.
    destruct (download_album c dir album w) as [[[]|e] w1] eqn:Ea; [|discriminate].
    intros Hrest. constructor; [|exact (IH w1 Hrest)].
    apply download_album_ok_dir in Ea.
    pose proof (keeps_for_each kinds_kept kinds_kept_refl kinds_kept_trans
                  albums (download_album c dir) (download_album_kinds c dir)
                  w1 (album_dir dir album)) as Hk.
    rewrite Ea, Hrest in Hk. exact Hk.
Qed.

(** X8.  When [download_albums] returns [True], the directory of every
    album of the list exists at the end of the run. *)
Theorem album_directories_exist albums dir c w :
  (download_albums albums dir c w).1 = Ok true ->
  Forall (fun album =>
    fs (download_albums albums dir c w).2 !! album_dir dir album = Some Dir) albums.
Proof.
  unfold download_albums, mbind, M_bind, is_dir.
  destruct (negb _).
  - destruct (logging_frame ERROR
                ("Does not exist or is not a directory: " +:+ str dir) w)
      as (w1 & -> & _). discriminate.
  - destruct (for_each albums (download_album c dir) w) as [[[]|e] w1] eqn:El;
      [|discriminate].
    intros _. apply albums_loop_dirs in El. exact El.
Qed.

End WithEnv.
End FrameFacts.

(** ** More on the converter *)

Module GeoMore.
Import F64Facts GeoFacts Frames.
Local Open Scope Q_scope.

(** X11.  For every decimal degree value of magnitude at most [10^12],
    the minutes and the seconds of the triple are below 60 in magnitude,
    at most one component is negative and every component before it is
    zero, no component is negative when the value is not, and the
    degrees exceed the magnitude of the value by less than a second of
    arc. *)
Theorem decimal_to_dms_components d :
  Qabs d <= inject_Z (10 ^ 12) ->
  exists D M S : Z,
    decimal_to_dms (Finite d) = Ok (D, M, S)
    /\ (Z.abs M < 60)%Z /\ (Z.abs S < 60)%Z
    /\ ((D < 0)%Z -> (0 <= M)%Z /\ (0 <= S)%Z)
    /\ ((M < 0)%Z -> D = 0%Z /\ (0 <= S)%Z)
    /\ ((S < 0)%Z -> D = 0%Z /\ M = 0%Z)
    /\ (0 <= d -> (0 <= D)%Z /\ (0 <= M)%Z /\ (0 <= S)%Z)
    /\ inject_Z (Z.abs D) < Qabs d + (1 # 3600).
Proof.
  intros Hb.
  destruct (decimal_to_dms_finite d (seconds_in_range d Hb))
    as (T & Hdms & HT0 & Hclose & _).
  destruct (seconds_total T HT0) as (E & HD & HM & HS).
  assert (Hdeg : inject_Z (T / 60 / 60) < Qabs d + (1 # 3600)).
  { apply Qabs_Qlt_condition in Hclose as [_ Hup].
    assert (H3600 : inject_Z (3600 * (T / 60 / 60)) <= inject_Z T).
    { rewrite <- Zle_Qle. lia. }
    rewrite inject_Z_mult in H3600. change (inject_Z 3600) with 3600 in H3600.
    apply Qmult_lt_r with 3600; [reflexivity|]. field_simplify. lra. }
  rewrite Hdms. unfold seconds_to_dms.
  set (D := (T / 60 / 60)%Z) in *. set (M := (T / 60 mod 60)%Z) in *.
  set (S := (T mod 60)%Z) in *.
  destruct (Qneg_bool d) eqn:Eneg.
  - assert (Hneg : ~ 0 <= d).
    { intros H0. rewrite (Qneg_bool_false d H0) in Eneg. discriminate. }
    destruct (0 <? D)%Z eqn:ED; [|destruct (0 <? M)%Z eqn:EM].
    + apply Z.ltb_lt in ED. exists (- D)%Z, M, S. rewrite Z.abs_opp, (Z.abs_eq D) by lia.
      repeat split; try lia; try tauto; try exact Hdeg.
    + apply Z.ltb_ge in ED. apply Z.ltb_lt in EM. exists D, (- M)%Z, S.
      rewrite (Z.abs_eq D) by lia.
      repeat split; try lia; try tauto; try exact Hdeg.
    + apply Z.ltb_ge in ED. apply Z.ltb_ge in EM. exists D, M, (- S)%Z.
      rewrite (Z.abs_eq D) by lia.
      repeat split; try lia; try tauto; try exact Hdeg.
  - exists D, M, S. rewrite (Z.abs_eq D) by lia.
    repeat split; try lia; try tauto; try exact Hdeg.
Qed.

Lemma Qabs_opp_eq q : Qabs (- q) = Qabs q.
Proof. destruct q as [a b]. unfold Qabs, Qopp. cbn. rewrite Z.abs_opp. reflexivity. Qed.

Lemma Qtrunc_opp q : Qtrunc (- q) = (- Qtrunc q)%Z.
Proof.
  unfold Qtrunc, Qceiling.
  destruct (Qle_bool 0 q) eqn:E1; destruct (Qle_bool 0 (- q)) eqn:E2.
  - apply Qle_bool_iff in E1, E2.
    assert (Hq : q == 0) by lra.
    rewrite Hq. reflexivity.
  - rewrite Qopp_involutive. reflexivity.
  - lia.
  - exfalso.
    assert (H1 : ~ 0 <= q) by (intros H; apply Qle_bool_iff in H; congruence).
    assert (H2 : ~ 0 <= - q) by (intros H; apply Qle_bool_iff in H; congruence).
    lra.
Qed.

Lemma py_int_fneg x :
  map_result Z.abs (py_int (fneg x)) = map_result Z.abs (py_int x).
Proof.
  destruct x as [q|b|]; cbn; [|reflexivity|reflexivity].
  rewrite Qtrunc_opp, Z.abs_opp. reflexivity.
Qed.

Lemma ints_magnitudes a b c a' b' c' :
  map_result Z.abs (py_int a') = map_result Z.abs (py_int a) ->
  map_result Z.abs (py_int b') = map_result Z.abs (py_int b) ->
  map_result Z.abs (py_int c') = map_result Z.abs (py_int c) ->
  map_result magnitudes (ints a' b' c') = map_result magnitudes (ints a b c).
Proof.
  unfold ints, mbind, result_bind. intros Ha Hb Hc.
  destruct (py_int a'), (py_int a); cbn in Ha; try discriminate;
    [|injection Ha as ->; reflexivity].
  destruct (py_int b'), (py_int b); cbn in Hb; try discriminate;
    [|injection Hb as ->; reflexivity].
  destruct (py_int c'), (py_int c); cbn in Hc; try discriminate;
    [|injection Hc as ->; reflexivity].
  cbn. congruence.
Qed.

Lemma decimal_to_dms_unfold x :
  decimal_to_dms x
  = match float_divmod (fmul (fabs x) (of_Z 3600)) (of_Z 60) with
    | Ok (minutes, seconds) =>
        match float_divmod minutes (of_Z 60) with
        | Ok (degrees, minutes) =>
            if flt x (Finite 0)
            then if flt (Finite 0) degrees then ints (fneg degrees) minutes seconds
                 else if flt (Finite 0) minutes then ints degrees (fneg minutes) seconds
                 else ints degrees minutes (fneg seconds)
            else ints degrees minutes seconds
        | Raise e => Raise e
        end
    | Raise e => Raise e
    end.
Proof.
  unfold decimal_to_dms, ints, mbind, result_bind.
  destruct (float_divmod (fmul (fabs x) (of_Z 3600)) (of_Z 60)) as [[m s]|e];
    [|reflexivity].
  destruct (float_divmod m (of_Z 60)) as [[dg mn]|e]; [|reflexivity].
  destruct (flt x (Finite 0)); [|reflexivity].
  destruct (flt (Finite 0) dg); [reflexivity|].
  destruct (flt (Finite 0) mn); reflexivity.
Qed.

Lemma fabs_fneg x : fabs (fneg x) = fabs x.
Proof.
  destruct x as [q|b|]; unfold fabs, fneg; [rewrite Qabs_opp_eq|..]; reflexivity.
Qed.

(** X12.  Changing the sign of the input changes at most the signs of
    the components: the magnitudes of the triple are the same, and so
    is the error when the conversion fails. *)
Theorem decimal_to_dms_mirror x :
  map_result magnitudes (decimal_to_dms (fneg x))
  = map_result magnitudes (decimal_to_dms x).
Proof.
  rewrite !decimal_to_dms_unfold, fabs_fneg.
  destruct (float_divmod (fmul (fabs x) (of_Z 3600)) (of_Z 60)) as [[m s]|e];
    [|reflexivity].
  destruct (float_divmod m (of_Z 60)) as [[dg mn]|e]; [|reflexivity].
  assert (Hsigned :
    map_result magnitudes
      (if flt (Finite 0) dg then ints (fneg dg) mn s
       else if flt (Finite 0) mn then ints dg (fneg mn) s
       else ints dg mn (fneg s))
    = map_result magnitudes (ints dg mn s)).
  { destruct (flt (Finite 0) dg); [|destruct (flt (Finite 0) mn)];
      apply ints_magnitudes; auto using py_int_fneg. }
  destruct (flt (fneg x) (Finite 0)), (flt x (Finite 0));
    rewrite ?Hsigned; reflexivity.
Qed.

(** X13.  A whole number of degrees, of magnitude at most [10^12], is
    converted exactly: no minutes, no seconds. *)
Theorem decimal_to_dms_whole_degrees n :
  (Z.abs n <= 10 ^ 12)%Z ->
  decimal_to_dms (of_Z n) = Ok (n, 0%Z, 0%Z).
Proof.
  intros Hn.
  destruct (of_Z_exact n) as (c & -> & Hc); [lia|].
  assert (Habs : Qabs c == inject_Z (Z.abs n)).
  { rewrite Hc, <- (Zabs_Qabs n 1). reflexivity. }
  assert (Hb : Qabs c <= inject_Z (10 ^ 12)).
  { rewrite Habs, <- Zle_Qle. exact Hn. }
  destruct (decimal_to_dms_finite c (seconds_in_range c Hb))
    as (T & -> & HT0 & Hclose & _).
  assert (ET : T = (Z.abs n * 3600)%Z).
  { apply Qabs_Qlt_condition in Hclose as [Hlo Hup].
    assert (H1 : inject_Z T < inject_Z (Z.abs n * 3600 + 1)).
    { rewrite inject_Z_plus, inject_Z_mult. change (inject_Z 3600) with 3600.
      change (inject_Z 1) with 1. lra. }
    assert (H2 : inject_Z (Z.abs n * 3600 - 1) < inject_Z T).
    { unfold Z.sub. rewrite inject_Z_plus, inject_Z_mult.
      change (inject_Z 3600) with 3600. change (inject_Z (- (1))) with (- (1)). lra. }
    rewrite <- Zlt_Qlt in H1, H2. lia. }
  f_equal. unfold seconds_to_dms. rewrite ET.
  replace (Z.abs n * 3600 / 60 / 60)%Z with (Z.abs n)
    by (rewrite Z.div_div by lia; change (60 * 60)%Z with 3600%Z;
        rewrite Z.div_mul by lia; reflexivity).
  replace (Z.abs n * 3600 / 60 mod 60)%Z with 0%Z
    by (replace (Z.abs n * 3600)%Z with (Z.abs n * 60 * 60)%Z by lia;
        rewrite Z.div_mul, Z.mod_mul by lia; reflexivity).
  replace (Z.abs n * 3600 mod 60)%Z with 0%Z
    by (replace (Z.abs n * 3600)%Z with (Z.abs n * 60 * 60)%Z by lia;
        rewrite Z.mod_mul by lia; reflexivity).
  destruct (Z_lt_le_dec n 0) as [Hlt|Hge].
  - rewrite Qneg_bool_true by (rewrite Hc; change 0 with (inject_Z 0);
      rewrite <- Zlt_Qlt; exact Hlt).
    assert ((0 <? Z.abs n)%Z = true) as -> by (apply Z.ltb_lt; lia).
    f_equal. f_equal. lia.
  - rewrite Qneg_bool_false by (rewrite Hc; change 0 with (inject_Z 0);
      rewrite <- Zle_Qle; exact Hge).
    f_equal. f_equal. lia.
Qed.

Local Close Scope Q_scope.

Lemma text_split_app sep a b :
  text_split sep (a ++ sep :: b) = text_split sep a ++ text_split sep b.
Proof.
  induction a as [|c a IH].
  - cbn [text_split app]. rewrite N.eqb_refl. reflexivity.
  - cbn [text_split app]. rewrite IH. destruct (c =? sep)%N; [reflexivity|].
    destruct (text_split sep a) as [|h t] eqn:Ea; [|reflexivity].
    exfalso. exact (text_split_nonempty sep a Ea).
Qed.

Lemma text_split_blank s :
  exists h t,
    text_split comma s = h :: t
    /\ text_split comma (32%N :: s) = (32%N :: h) :: t.
Proof.
  cbn [text_split]. change (32 =? comma)%N with false. cbv iota.
  destruct (text_split comma s) as [|h t] eqn:Es; [|eauto].
  exfalso. exact (text_split_nonempty comma s Es).
Qed.

Section WithUnicode.
Context `{Unicode}.

Lemma py_float_blank s : py_float (32%N :: s) = py_float s.
Proof.
  unfold py_float, ascii_form.
  change (is_ascii (32%N :: s)) with (is_ascii s).
  destruct (is_ascii s); reflexivity.
Qed.

(** X14.  A blank after the comma is ignored, as in the example of the
    help text: the outcome for [N, W] is the outcome for [N,W]. *)
Theorem lat_long_blank_after_comma N W :
  lat_long_decimal_to_dms (N ++ comma :: 32%N :: W)
  = lat_long_decimal_to_dms (N ++ comma :: W).
Proof.
  unfold lat_long_decimal_to_dms. rewrite !text_split_app.
  destruct (text_split_blank W) as (h & t & -> & ->).
  destruct (text_split comma N) as [|n [|n' ns]] eqn:EN.
  - exfalso. exact (text_split_nonempty comma N EN).
  - cbn [app]. destruct t; [|reflexivity]. rewrite py_float_blank. reflexivity.
  - cbn [app]. destruct ns; reflexivity.
Qed.

End WithUnicode.

Lemma float_divmod_60_ok x :
  exists p, float_divmod x (of_Z 60) = Ok p.
Proof.
  unfold float_divmod. change (is_zero (of_Z 60)) with false. cbv iota.
  destruct (if truthy (fmod x (of_Z 60)) then _ else _) as [m d]. eauto.
Qed.

Lemma py_int_error x e :
  py_int x = Raise e -> exn_cls e = ValueError \/ exn_cls e = OverflowError.
Proof. destruct x; cbn; intros [= <-]; auto. Qed.

Lemma ints_error a b c e :
  ints a b c = Raise e -> exn_cls e = ValueError \/ exn_cls e = OverflowError.
Proof.
  unfold ints, mbind, result_bind.
  destruct (py_int a) eqn:Ea; [|intros [= <-]; exact (py_int_error _ _ Ea)].
  destruct (py_int b) eqn:Eb; [|intros [= <-]; exact (py_int_error _ _ Eb)].
  destruct (py_int c) eqn:Ec; [discriminate|intros [= <-]; exact (py_int_error _ _ Ec)].
Qed.

Lemma decimal_to_dms_error x e :
  decimal_to_dms x = Raise e -> exn_cls e = ValueError \/ exn_cls e = OverflowError.
Proof.
  rewrite decimal_to_dms_unfold.
  destruct (float_divmod_60_ok (fmul (fabs x) (of_Z 3600))) as ([m s] & ->).
  destruct (float_divmod_60_ok m) as ([dg mn] & ->).
  destruct (flt x (Finite 0)); [|apply ints_error].
  destruct (flt (Finite 0) dg); [apply ints_error|].
  destruct (flt (Finite 0) mn); apply ints_error.
Qed.

Lemma float_from_string_error s e :
  float_from_string s = Raise e -> exn_cls e = ValueError.
Proof.
  unfold float_from_string. destruct (strip s) as [|c r]; cbn zeta.
  - cbn. intros [= <-]. reflexivity.
  - destruct (match String c r with
              | String "+" r0 => (false, r0)
              | String "-" r0 => (true, r0)
              | _ => (false, String c r)
              end) as [neg body].
    destruct (_ || _); [discriminate|].
    destruct (String.eqb _ "nan"); [discriminate|].
    destruct (floatnumber body); [discriminate|]. intros [= <-]. reflexivity.
Qed.

(** X15.  Whatever the [--geo] string, a failure of
    [lat_long_decimal_to_dms] is a [ValueError] or an [OverflowError]:
    the division by 60 never raises. *)
Theorem lat_long_error_class `{Unicode} coord e :
  lat_long_decimal_to_dms coord = Raise e ->
  exn_cls e = ValueError \/ exn_cls e = OverflowError.
Proof.
  unfold lat_long_decimal_to_dms.
  destruct (text_split comma coord) as [|N [|W [|]]];
    try (intros [= <-]; cbn; auto).
  unfold mbind, result_bind, py_float.
  destruct (float_from_string (ascii_form N)) as [n|] eqn:En;
    [|intros [= <-]; left; exact (float_from_string_error _ _ En)].
  destruct (decimal_to_dms n) as [a|] eqn:Ea;
    [|intros [= <-]; exact (decimal_to_dms_error _ _ Ea)].
  destruct (float_from_string (ascii_form W)) as [w|] eqn:Ew;
    [|intros [= <-]; left; exact (float_from_string_error _ _ Ew)].
  destruct (decimal_to_dms w) as [b|] eqn:Eb;
    [discriminate|intros [= <-]; exact (decimal_to_dms_error _ _ Eb)].
Qed.

End GeoMore.

(** ** The fetcher's requests and results *)

Module FetchFacts.
Import DlFacts Fetch.

Section WithRemote.
Context `{Remote}.

Lemma parse_item_ok item p :
  parse_item item = Ok p -> photo_of_item item p.
Proof.
  unfold parse_item, photo_of_item, mbind, result_bind. intros Hp.
  destruct (getitem item "shutterflyId") as [i|]; [|discriminate].
  destruct (getitem item "captureDate") as [st|]; [|discriminate].
  destruct (truth st) eqn:Et.
  - destruct (fromtimestamp st) as [d|] eqn:Ed; [|discriminate].
    destruct (getitem item "title") as [t|]; [|discriminate].
    injection Hp as <-. cbn. eauto 10.
  - destruct (getitem item "title") as [t|]; [|discriminate].
    injection Hp as <-. cbn. eauto 10.
Qed.

Lemma collect_result_Forall2 {A B} (body : A -> result B) l ys :
  collect_result l body = Ok ys -> Forall2 (fun x y => body x = Ok y) l ys.
Proof.
  revert ys. induction l as [|x l IH]; intros ys; cbn.
  - intros [= <-]. constructor.
  - unfold mbind, result_bind. destruct (body x) as [y|] eqn:Ey; [|discriminate].
    destruct (collect_result l body) as [ys'|]; [|discriminate].
    intros [= <-]. constructor; auto.
Qed.

Lemma parse_group_ok token site g s a s' :
  parse_group token site g s = (Ok a, s') ->
  getitem g "title" = Ok (title a)
  /\ exists n text data items,
       getitem g "nodeId" = Ok n
       /\ http_post (length (posts s)) (album_request token site n) = Ok text
       /\ parse_js_object text = Ok data
       /\ items_of data = Ok items
       /\ collect_result items parse_item = Ok (photos a)
       /\ s' = {| local := local s; posts := posts s ++ [album_request token site n] |}.
Proof.
  unfold parse_group, items_of, mbind, F_bind, pure, session_post, mret, F_ret.
  intros Hrun.
  destruct (getitem g "title") as [t|]; [|discriminate].
  destruct (getitem g "nodeId") as [n|]; [|discriminate].
  fold (album_request token site n) in Hrun.
  destruct (http_post _ _) as [text|] eqn:Epost; [|discriminate].
  destruct (parse_js_object text) as [data|] eqn:Eparse; [|discriminate].
  unfold result_bind in *.
  destruct (getitem data "result") as [r|] eqn:E1; [|discriminate].
  destruct (getitem r "section") as [sec|] eqn:E2; [|discriminate].
  destruct (getitem sec "items") as [i|] eqn:E3; [|discriminate].
  destruct (iterate i) as [items|] eqn:Ei; [|discriminate].
  destruct (collect_result items parse_item) as [ps|] eqn:Eps; [|discriminate].
  injection Hrun as <- <-. split; [reflexivity|].
  exists n, text, data, items. cbn. repeat split; auto.
  rewrite E1, E2, E3. exact Ei.
Qed.

(** Whatever happens to it, a group costs at most one request, and
    that request carries the caller's token to the site's endpoint. *)
Lemma parse_group_any token site g s :
  local (parse_group token site g s).2 = local s
  /\ exists l,
       posts (parse_group token site g s).2 = posts s ++ l
       /\ (length l <= 1)%nat
       /\ Forall (fun r => cookie r = token /\ target r = endpoint site) l.
Proof.
  unfold parse_group, mbind, F_bind, pure, session_post, mret, F_ret.
  destruct (getitem g "title") as [t|]; cbn;
    [|split; [reflexivity|]; exists []; rewrite app_nil_r; cbn; auto].
  destruct (getitem g "nodeId") as [n|]; cbn;
    [|split; [reflexivity|]; exists []; rewrite app_nil_r; cbn; auto].
  assert (Hone : forall r : result album * session,
    local r.2 = local s ->
    posts r.2 = posts s ++ [album_request token site n] ->
    local r.2 = local s
    /\ exists l, posts r.2 = posts s ++ l /\ (length l <= 1)%nat
         /\ Forall (fun r => cookie r = token /\ target r = endpoint site) l).
  { intros r Hl Hp. split; [exact Hl|]. eexists. split; [exact Hp|].
    split; [cbn; lia|]. repeat constructor. }
  destruct (http_post _ _) as [text|]; [|apply Hone; reflexivity].
  destruct (parse_js_object text) as [data|]; [|apply Hone; reflexivity].
  destruct (result_bind _ _ _ (getitem data "result")) as [i|]; [|apply Hone; reflexivity].
  destruct (iterate i) as [items|]; [|apply Hone; reflexivity].
  destruct (collect_result items parse_item) as [ps|]; apply Hone; reflexivity.
Qed.

Lemma collect_groups_ok token site groups s albums s' :
  collect groups (parse_group token site) s = (Ok albums, s') ->
  local s' = local s
  /\ Forall2 (fun g a => getitem g "title" = Ok (title a)) groups albums
  /\ Forall (fun a => Forall (fun p => photo_url p = image_url (photo_id p)) (photos a))
       albums
  /\ exists ids,
       Forall2 (fun g n => getitem g "nodeId" = Ok n) groups ids
       /\ posts s' = posts s ++ map (album_request token site) ids.
Proof.
  revert s albums s'. induction groups as [|g groups IH]; intros s albums s'; cbn.
  - intros [= <- <-]. repeat split; try constructor.
    exists []. split; [constructor|]. cbn. rewrite app_nil_r. reflexivity.
  - unfold mbind at 1, F_bind at 1.
    destruct (parse_group token site g s) as [[a|e] s1] eqn:Eg; [|discriminate].
    unfold mbind at 1, F_bind at 1.
    destruct (collect groups (parse_group token site) s1) as [[l|e] s2] eqn:El;
      [|discriminate].
    intros [= <- <-].
    apply parse_group_ok in Eg as (Ht & n & text & data & items & Hn & _ & _ & _ & Hps & ->).
    apply IH in El as (Hl & Hts & Hurls & ids & Hids & Hposts). cbn in *.
    split; [exact Hl|]. split; [constructor; assumption|]. split.
    + constructor; [|exact Hurls].
      apply collect_result_Forall2 in Hps.
      induction Hps as [|item p ? ? Hp _ IHp]; constructor; [|exact IHp].
      apply parse_item_ok in Hp. apply Hp.
    + exists (n :: ids). split; [constructor; assumption|].
      rewrite Hposts, <- app_assoc. reflexivity.
Qed.

Lemma collect_groups_any token site groups s :
  local (collect groups (parse_group token site) s).2 = local s
  /\ exists l,
       posts (collect groups (parse_group token site) s).2 = posts s ++ l
       /\ (length l <= length groups)%nat
       /\ Forall (fun r => cookie r = token /\ target r = endpoint site) l.
Proof.
  revert s. induction groups as [|g groups IH]; intros s; cbn.
  - split; [reflexivity|]. exists []. rewrite app_nil_r. cbn. auto.
  - unfold mbind, F_bind.
    destruct (parse_group_any token site g s) as (Hl1 & l1 & Hp1 & Hn1 & Ha1).
    destruct (parse_group token site g s) as [[a|e] s1]; cbn in *.
    + destruct (IH s1) as (Hl2 & l2 & Hp2 & Hn2 & Ha2).
      destruct (collect groups (parse_group token site) s1) as [[l|e] s2];
        unfold mret, F_ret; cbn in *.
      all: split; [congruence|]; exists (l1 ++ l2);
        rewrite Hp2, Hp1, <- app_assoc, length_app;
        split; [reflexivity|]; split; [lia|]; apply Forall_app; auto.
    + split; [exact Hl1|]. exists l1. split; [exact Hp1|]. split; [lia|exact Ha1].
Qed.

Lemma parse_albums_unfold data token site s :
  _parse_albums data token site s
  = match groups_of data with
    | Ok groups => collect groups (parse_group token site) s
    | Raise e => (Raise e, s)
    end.
Proof.
  unfold _parse_albums, groups_of, mbind, F_bind, pure, result_bind.
  destruct (getitem data "result") as [r|]; [|reflexivity].
  destruct (getitem r "section") as [sec|]; [|reflexivity].
  destruct (getitem sec "groups") as [g|]; [|reflexivity].
  destruct (iterate g); reflexivity.
Qed.

Lemma get_albums_data_any token site s :
  exists text_or_err w1,
    posts (_get_albums_data token site s).2 = posts s ++ [listing_request token site]
    /\ local (_get_albums_data token site s).2 = w1
    /\ fs w1 = fs (local s) /\ gets w1 = gets (local s)
    /\ uuids w1 = uuids (local s) /\ level w1 = level (local s)
    /\ match text_or_err with
       | Ok text =>
           http_post (length (posts s)) (listing_request token site) = Ok text
           /\ (_get_albums_data token site s).1 = parse_js_object text
           /\ w1 = (logging DEBUG ("Response: " +:+ text) (local s)).2
       | Raise e =>
           http_post (length (posts s)) (listing_request token site) = Raise e
           /\ (_get_albums_data token site s).1 = Raise e /\ w1 = local s
       end.
Proof.
  unfold _get_albums_data, mbind, F_bind, session_post, pure, on_local.
  fold (listing_request token site).
  destruct (http_post _ _) as [text|e] eqn:Ep.
  - exists (Ok text). cbn [local posts].
    destruct (logging_frame DEBUG ("Response: " +:+ text) (local s))
      as (w1 & Hlog & Hfs & Hgets & Hlevel & Huuids).
    rewrite Hlog. cbn. exists w1. repeat split; auto.
  - exists (Raise e), (local s). cbn. repeat split; auto.
Qed.

Lemma collect_result_photos items ps :
  collect_result items parse_item = Ok ps -> Forall2 photo_of_item items ps.
Proof.
  intros Hps. apply collect_result_Forall2 in Hps.
  induction Hps as [|item p ? ? Hp _ IHp]; constructor; [|exact IHp].
  apply parse_item_ok. exact Hp.
Qed.

(** X16.  When [_parse_albums] returns, it returns one album per group
    of the listing, in the order of the groups, each under the title of
    its group. *)
Theorem parse_albums_mirrors_groups data token site s albums s' :
  _parse_albums data token site s = (Ok albums, s') ->
  exists groups,
    groups_of data = Ok groups
    /\ Forall2 (fun g a => getitem g "title" = Ok (title a)) groups albums.
Proof.
  rewrite parse_albums_unfold.
  destruct (groups_of data) as [groups|e]; [|discriminate].
  intros Hrun. apply collect_groups_ok in Hrun as (_ & Hts & _).
  exists groups. auto.
Qed.

(** X17.  When [_parse_albums] returns, it has made exactly one POST
    request per group, in the order of the groups: the request for the
    pictures of the album whose node identifier is that of the group,
    with the caller's token as cookie.  It leaves the downloader's
    world alone. *)
Theorem parse_albums_requests data token site s albums s' :
  _parse_albums data token site s = (Ok albums, s') ->
  exists groups ids,
    groups_of data = Ok groups
    /\ Forall2 (fun g n => getitem g "nodeId" = Ok n) groups ids
    /\ posts s' = posts s ++ map (album_request token site) ids
    /\ local s' = local s.
Proof.
  rewrite parse_albums_unfold.
  destruct (groups_of data) as [groups|e]; [|discriminate].
  intros Hrun. apply collect_groups_ok in Hrun as (Hl & _ & _ & ids & Hids & Hp).
  exists groups, ids. auto.
Qed.

Lemma parse_albums_any data token site s :
  local (_parse_albums data token site s).2 = local s
  /\ exists l, posts (_parse_albums data token site s).2 = posts s ++ l.
Proof.
  rewrite parse_albums_unfold.
  destruct (groups_of data) as [groups|e].
  - destruct (collect_groups_any token site groups s) as (Hl & l & Hp & _).
    split; [exact Hl|]. exists l. exact Hp.
  - split; [reflexivity|]. exists []. cbn. rewrite app_nil_r. reflexivity.
Qed.

(** X18.  Whether it returns or raises, [_parse_albums] makes at most
    one request per group, each to the endpoint of the site with the
    caller's token; when the listing has no usable list of groups it
    raises without making any request. *)
Theorem parse_albums_posts_bounded data token site s :
  local (_parse_albums data token site s).2 = local s
  /\ exists l,
       posts (_parse_albums data token site s).2 = posts s ++ l
       /\ Forall (fun r => cookie r = token /\ target r = endpoint site) l
       /\ match groups_of data with
          | Ok groups => (length l <= length groups)%nat
          | Raise e => l = [] /\ (_parse_albums data token site s).1 = Raise e
          end.
Proof.
  rewrite parse_albums_unfold.
  destruct (groups_of data) as [groups|e].
  - destruct (collect_groups_any token site groups s) as (Hl & l & Hp & Hn & Ha).
    split; [exact Hl|]. exists l. auto.
  - split; [reflexivity|]. exists []. cbn. rewrite app_nil_r. auto.
Qed.

(** X19.  The album built for a group holds one photo per item of the
    server's answer, in the order of the items.  Each photo has the
    identifier and the title of its item and the URL made of the
    identifier; it has no capture date when the [captureDate] of the
    item is false (zero, null, empty), and the local time of that
    timestamp otherwise.  An item without [captureDate] makes the call
    raise. *)
Theorem parse_group_photos token site g s a s' :
  parse_group token site g s = (Ok a, s') ->
  exists n text data items,
    getitem g "nodeId" = Ok n
    /\ http_post (length (posts s)) (album_request token site n) = Ok text
    /\ parse_js_object text = Ok data
    /\ items_of data = Ok items
    /\ Forall2 photo_of_item items (photos a).
Proof.
  intros Hrun.
  apply parse_group_ok in Hrun
    as (_ & n & text & data & items & Hn & Hpost & Hparse & Hitems & Hps & _).
  exists n, text, data, items. repeat split; auto using collect_result_photos.
Qed.

Lemma get_albums_unfold token site s :
  get_albums token site s
  = match _get_albums_data token site s with
    | (Ok data, s1) => _parse_albums data token site s1
    | (Raise e, s1) => (Raise e, s1)
    end.
Proof. reflexivity. Qed.

(** X20.  When [get_albums] returns, it has made one request more than
    it returns albums: first the request for the list of the albums,
    then one request per album, all to the endpoint of the site with
    the caller's token. *)
Theorem get_albums_request_count token site s albums s' :
  get_albums token site s = (Ok albums, s') ->
  exists l,
    posts s' = posts s ++ listing_request token site :: l
    /\ length l = length albums
    /\ Forall (fun r => cookie r = token /\ target r = endpoint site) l.
Proof.
  rewrite get_albums_unfold.
  destruct (get_albums_data_any token site s) as (t & w1 & Hp1 & _).
  destruct (_get_albums_data token site s) as [[data|e] s1]; [|discriminate].
  cbn [snd] in Hp1. rewrite parse_albums_unfold.
  destruct (groups_of data) as [groups|e]; [|discriminate].
  intros Hrun. apply collect_groups_ok in Hrun as (_ & Hts & _ & ids & Hids & Hp).
  exists (map (album_request token site) ids).
  rewrite Hp, Hp1, <- app_assoc. split; [reflexivity|]. split.
  - rewrite length_map. apply Forall2_length in Hts, Hids. congruence.
  - apply Forall_forall. intros r Hr. apply list_elem_of_fmap in Hr as (n & -> & _).
    split; reflexivity.
Qed.

(** X21.  The fetcher stays off the downloader's ground: whether
    [get_albums] returns or raises, the file system, the list of GET
    requests, the tokens and the threshold of the logger are as before,
    and the first request it has made is the one for the list of the
    albums. *)
Theorem get_albums_keeps_local token site s :
  fs (local (get_albums token site s).2) = fs (local s)
  /\ gets (local (get_albums token site s).2) = gets (local s)
  /\ uuids (local (get_albums token site s).2) = uuids (local s)
  /\ level (local (get_albums token site s).2) = level (local s)
  /\ exists l,
       posts (get_albums token site s).2 = posts s ++ listing_request token site :: l.
Proof.
  rewrite get_albums_unfold.
  destruct (get_albums_data_any token site s)
    as (t & w1 & Hp1 & Hl1 & Hfs & Hgets & Huuids & Hlevel & _).
  destruct (_get_albums_data token site s) as [[data|e] s1]; cbn [snd] in *.
  - destruct (parse_albums_any data token site s1) as (Hl & l & Hp).
    rewrite Hl, Hl1, Hp, Hp1, <- app_assoc. repeat split; auto. exists l. reflexivity.
  - rewrite Hl1, Hp1. repeat split; auto. exists []. reflexivity.
Qed.

(** X22.  Every photo that [get_albums] returns has the URL
    [https://uniim-share.shutterfly.com/v2/procgtaserv/] followed by its
    identifier. *)
Theorem get_albums_photo_urls token site s albums s' :
  get_albums token site s = (Ok albums, s') ->
  Forall (fun a =>
    Forall (fun p => photo_url p = image_url (photo_id p)) (photos a)) albums.
Proof.
  rewrite get_albums_unfold.
  destruct (_get_albums_data token site s) as [[data|e] s1]; [|discriminate].
  rewrite parse_albums_unfold.
  destruct (groups_of data) as [groups|e]; [|discriminate].
  intros Hrun. apply collect_groups_ok in Hrun as (_ & _ & Hurls & _). exact Hurls.
Qed.

End WithRemote.
End FetchFacts.

(** ** The entry point *)

Module CliFacts.
Import DlFacts Frames FetchFacts.

Section WithAll.
Context `{Unicode} `{Env} `{Fetch.Remote} `{Loose}.

(** On albums of the declared types, the loops that [main] runs are
    those of [download_albums]. *)
Lemma download_photo_any_typed c gp photo :
  download_photo_any c gp (of_photo photo) = download_photo c gp photo.
Proof. destruct photo. reflexivity. Qed.

Lemma download_album_any_typed c dir album w :
  download_album_any c dir (of_album album) w = download_album c dir album w.
Proof.
  unfold download_album_any, download_album, of_album, mbind, M_bind, lift.
  cbn [Fetch.title Fetch.photos Fetch.format replace_slash].
  destruct (logging INFO _ w) as [[[]|e] w1]; [|reflexivity].
  destruct (mkdir_exist_ok _ w1) as [[[]|e] w2]; [|reflexivity].
  generalize w2. induction (photos album) as [|photo l IH]; intros w3; [reflexivity|].
  cbn [map for_each]. unfold mbind, M_bind. rewrite download_photo_any_typed.
  destruct (download_photo c _ photo w3) as [[[]|e] w4]; [apply IH|reflexivity].
Qed.

Lemma download_albums_any_typed albums dir c w :
  download_albums_any (map of_album albums) dir c w = download_albums albums dir c w.
Proof.
  assert (Hloop : forall w0,
    for_each (map of_album albums) (download_album_any c dir) w0
    = for_each albums (download_album c dir) w0).
  { induction albums as [|album l IH]; intros w0; [reflexivity|].
    cbn [map for_each]. unfold mbind, M_bind. rewrite download_album_any_typed.
    destruct (download_album c dir album w0) as [[[]|e] w2]; [apply IH|reflexivity]. }
  unfold download_albums_any, download_albums, mbind, M_bind, is_dir.
  destruct (fs w !! str dir) as [[|d t]|]; cbn [negb]; rewrite ?Hloop; reflexivity.
Qed.

(** The downloader at the end of [main]: without a directory, one
    record and nothing else; with one, never [False]. *)
Lemma download_albums_any_result albums dir c w :
  match fs w !! str dir with
  | Some Dir =>
      (download_albums_any albums dir c w).1 = Ok true
      \/ exists e, (download_albums_any albums dir c w).1 = Raise e
  | _ =>
      (download_albums_any albums dir c w).1 = Ok false
      /\ fs (download_albums_any albums dir c w).2 = fs w
      /\ gets (download_albums_any albums dir c w).2 = gets w
      /\ log (download_albums_any albums dir c w).2
         = log w ++ emitted (level w)
                      [(ERROR, "Does not exist or is not a directory: " +:+ str dir)]
  end.
Proof.
  unfold download_albums_any, mbind, M_bind, is_dir.
  destruct (fs w !! str dir) as [[|data mt]|] eqn:E; cbn [negb].
  - destruct (for_each_outcome albums (download_album_any c dir) w)
      as [Hr|[e Hr]];
      destruct (for_each albums (download_album_any c dir) w)
        as [[[]|e'] w1]; cbn in *; try discriminate; eauto.
  - pose proof (logging_log ERROR
                  ("Does not exist or is not a directory: " +:+ str dir) w) as Hlog.
    destruct (logging_frame ERROR
                ("Does not exist or is not a directory: " +:+ str dir) w)
      as (w1 & E1 & Hfs & Hgets & _). rewrite E1 in Hlog |- *. cbn. auto.
  - pose proof (logging_log ERROR
                  ("Does not exist or is not a directory: " +:+ str dir) w) as Hlog.
    destruct (logging_frame ERROR
                ("Does not exist or is not a directory: " +:+ str dir) w)
      as (w1 & E1 & Hfs & Hgets & _). rewrite E1 in Hlog |- *. cbn. auto.
Qed.

(** What the fetcher leaves in the downloader's world: at most the
    record of the answer to the listing request. *)
Lemma get_albums_local token site s :
  fs (Fetch.local (Fetch.get_albums token site s).2) = fs (Fetch.local s)
  /\ gets (Fetch.local (Fetch.get_albums token site s).2) = gets (Fetch.local s)
  /\ level (Fetch.local (Fetch.get_albums token site s).2) = level (Fetch.local s)
  /\ (forall albums,
        (Fetch.get_albums token site s).1 = Ok albums ->
        exists text,
          Fetch.http_post (length (Fetch.posts s)) (Fetch.listing_request token site)
          = Ok text
          /\ log (Fetch.local (Fetch.get_albums token site s).2)
             = log (Fetch.local s)
               ++ emitted (level (Fetch.local s)) [(DEBUG, "Response: " +:+ text)]).
Proof.
  rewrite get_albums_unfold.
  destruct (get_albums_data_any token site s)
    as (t & w1 & Hp1 & Hl1 & Hfs & Hgets & Huuids & Hlevel & Ht).
  destruct (Fetch._get_albums_data token site s) as [[data|e] s1]; cbn [snd] in *.
  - destruct (parse_albums_any data token site s1) as (Hl & l & Hp).
    rewrite Hl, Hl1. repeat split; auto.
    intros albums _. destruct t as [text|e].
    + destruct Ht as (Hpost & _ & ->). exists text. split; [exact Hpost|].
      apply logging_log.
    + destruct Ht as (_ & Hr & _). discriminate.
  - rewrite Hl1. repeat split; auto. intros albums Hr. discriminate.
Qed.

Lemma main_unfold args s :
  main args s
  = match Fetch.get_albums (token args) (site args) (configured (verbose args) s) with
    | (Ok albums, s1) =>
        match parse_geo (geo args) with
        | Ok coordinate =>
            match download_albums_any albums (path_of_str (directory args))
                    coordinate (Fetch.local s1) with
            | (Ok success, w) =>
                (Ok (if success : bool then 0 else 1),
                 {| Fetch.local := w; Fetch.posts := Fetch.posts s1 |})
            | (Raise e, w) =>
                (Raise e, {| Fetch.local := w; Fetch.posts := Fetch.posts s1 |})
            end
        | Raise e => (Raise e, s1)
        end
    | (Raise e, s1) => (Raise e, s1)
    end.
Proof.
  unfold main, parse_geo, mbind at 1 2 3, Fetch.F_bind at 1 2 3,
    Fetch.on_local at 1 2, setLevel, mret, Fetch.F_ret.
  assert (Hconf : forall k : Fetch.F Z,
    (let (r, s') :=
       (if verbose args
        then Fetch.on_local
               (fun w => (Ok tt, {| fs := fs w; gets := gets w; log := log w;
                                    level := DEBUG; uuids := uuids w |}))
        else fun s0 => (Ok tt, s0))
         {| Fetch.local :=
              {| fs := fs (Fetch.local s); gets := gets (Fetch.local s);
                 log := log (Fetch.local s); level := INFO;
                 uuids := uuids (Fetch.local s) |};
            Fetch.posts := Fetch.posts s |} in
     match r with Ok _ => k s' | Raise e => (Raise e, s') end)
    = k (configured (verbose args) s)).
  { intros k. unfold configured, Fetch.on_local. destruct (verbose args); reflexivity. }
  cbn [fst snd Fetch.local Fetch.posts]. rewrite Hconf.
  destruct (Fetch.get_albums (token args) (site args) (configured (verbose args) s))
    as [[albums|e] s1]; [|reflexivity].
  unfold mbind, Fetch.F_bind, Fetch.pure, Fetch.on_local, result_bind, mret,
    Fetch.F_ret.
  destruct (geo args) as [[|c g]|]; cbn.
  - destruct (download_albums_any albums _ None (Fetch.local s1)) as [[b|e] w];
      reflexivity.
  - destruct (lat_long_decimal_to_dms (c :: g)) as [co|e]; [|reflexivity].
    destruct (download_albums_any albums _ (Some co) (Fetch.local s1)) as [[b|e] w];
      reflexivity.
  - destruct (download_albums_any albums _ None (Fetch.local s1)) as [[b|e] w];
      reflexivity.
Qed.

(** X9.  An unusable [--geo] value makes [main] raise before anything
    is downloaded.  The albums are fetched first, so an error of the
    fetcher takes precedence, and the session is left as the fetcher
    left it, with its POST requests and, under [--verbose], the record
    of the answer to the listing request: there is no GET request and
    no change to the file system. *)
Theorem main_rejects_geo_before_download args s g e :
  geo args = Some g ->
  g <> [] ->
  lat_long_decimal_to_dms g = Raise e ->
  (main args s).1
  = match (Fetch.get_albums (token args) (site args)
             (configured (verbose args) s)).1 with
    | Ok _ => Raise e
    | Raise e' => Raise e'
    end
  /\ (main args s).2
     = (Fetch.get_albums (token args) (site args) (configured (verbose args) s)).2
  /\ fs (Fetch.local (main args s).2) = fs (Fetch.local s)
  /\ gets (Fetch.local (main args s).2) = gets (Fetch.local s).
Proof.
  intros Hg Hne He. rewrite main_unfold. unfold parse_geo. rewrite Hg.
  destruct g as [|c g]; [congruence|]. unfold mbind, result_bind. rewrite He.
  destruct (get_albums_local (token args) (site args) (configured (verbose args) s))
    as (Hfs & Hgets & _).
  destruct (Fetch.get_albums (token args) (site args) (configured (verbose args) s))
    as [[albums|e'] s1]; cbn [fst snd] in *; auto.
Qed.

(** X10.  When [main] returns, it returns 0 or 1.  It returns 0 only
    if the target was a directory.  It returns 1 exactly when the
    target is not a directory, and then the run made no GET request and
    left the file system alone; its POST requests are those of the
    fetcher, and its records are the error, preceded under [--verbose]
    by the record of the answer to the listing request. *)
Theorem main_status args s z :
  (main args s).1 = Ok z ->
  (z = 0 /\ fs (Fetch.local s) !! str (path_of_str (directory args)) = Some Dir)
  \/ (z = 1
      /\ fs (Fetch.local s) !! str (path_of_str (directory args)) <> Some Dir
      /\ fs (Fetch.local (main args s).2) = fs (Fetch.local s)
      /\ gets (Fetch.local (main args s).2) = gets (Fetch.local s)
      /\ Fetch.posts (main args s).2
         = Fetch.posts (Fetch.get_albums (token args) (site args)
                          (configured (verbose args) s)).2
      /\ exists text,
           Fetch.http_post (length (Fetch.posts s))
             (Fetch.listing_request (token args) (site args)) = Ok text
           /\ log (Fetch.local (main args s).2)
              = log (Fetch.local s)
                ++ emitted (if verbose args then DEBUG else INFO)
                     [(DEBUG, "Response: " +:+ text);
                      (ERROR, "Does not exist or is not a directory: "
                                +:+ str (path_of_str (directory args)))]).
Proof.
  rewrite main_unfold.
  destruct (get_albums_local (token args) (site args) (configured (verbose args) s))
    as (Hfs & Hgets & Hlevel & Hlog).
  destruct (Fetch.get_albums (token args) (site args) (configured (verbose args) s))
    as [[albums|e] s1]; [|discriminate].
  cbn [fst snd] in *.
  destruct (parse_geo (geo args)) as [c|e]; [|discriminate].
  pose proof (download_albums_any_result albums (path_of_str (directory args)) c
                (Fetch.local s1)) as Hres.
  rewrite Hfs in Hres. change (fs (Fetch.local (configured (verbose args) s)))
    with (fs (Fetch.local s)) in *.
  change (gets (Fetch.local (configured (verbose args) s)))
    with (gets (Fetch.local s)) in *.
  destruct (Hlog albums eq_refl) as (text & Hpost & Hlog1).
  change (length (Fetch.posts (configured (verbose args) s)))
    with (length (Fetch.posts s)) in Hpost.
  change (log (Fetch.local (configured (verbose args) s)))
    with (log (Fetch.local s)) in Hlog1.
  change (level (Fetch.local (configured (verbose args) s)))
    with (if verbose args then DEBUG else INFO) in *.
  destruct (fs (Fetch.local s) !! str (path_of_str (directory args)))
    as [[|d t]|] eqn:E.
  - destruct (download_albums_any albums _ c (Fetch.local s1)) as [[[]|e] w];
      cbn [fst snd] in *; intros [= <-]; [left; auto|].
    destruct Hres as [Hr|[e Hr]]; discriminate.
  - destruct Hres as (Hr & Hfs1 & Hgets1 & Hlog2).
    destruct (download_albums_any albums _ c (Fetch.local s1)) as [[[]|e] w];
      cbn [fst snd Fetch.local Fetch.posts] in *; try discriminate.
    intros [= <-]. right.
    repeat split; try congruence. exists text. split; [exact Hpost|].
    rewrite Hlog2, Hlog1, Hlevel, <- app_assoc, <- emitted_app. reflexivity.
  - destruct Hres as (Hr & Hfs1 & Hgets1 & Hlog2).
    destruct (download_albums_any albums _ c (Fetch.local s1)) as [[[]|e] w];
      cbn [fst snd Fetch.local Fetch.posts] in *; try discriminate.
    intros [= <-]. right.
    repeat split; try congruence. exists text. split; [exact Hpost|].
    rewrite Hlog2, Hlog1, Hlevel, <- app_assoc, <- emitted_app. reflexivity.
Qed.

End WithAll.
End CliFacts.

(** ** The added properties on concrete inputs *)

Module MoreRuns.
Import F64Facts GeoFacts DlFacts Frames FrameFacts GeoMore Fetch FetchFacts CliFacts.
Import Demo FetchDemo.

(** The converter. *)

Lemma decimal_to_dms_components_witness :
  exists D M S : Z,
    decimal_to_dms (Finite (- (18945 # 256))) = Ok (D, M, S)
    /\ Z.abs M < 60 /\ Z.abs S < 60
    /\ (D < 0 -> 0 <= M /\ 0 <= S)
    /\ (M < 0 -> D = 0 /\ 0 <= S)
    /\ (S < 0 -> D = 0 /\ M = 0)
    /\ ((0 <= - (18945 # 256))%Q -> 0 <= D /\ 0 <= M /\ 0 <= S)
    /\ (inject_Z (Z.abs D) < Qabs (- (18945 # 256)) + (1 # 3600))%Q.
Proof.
  apply (decimal_to_dms_components (- (18945 # 256))).
  apply Qle_bool_iff. vm_compute. reflexivity.
Defined.

Lemma decimal_to_dms_whole_degrees_witness :
  decimal_to_dms (of_Z (-74)) = Ok (-74, 0, 0).
Proof. apply (decimal_to_dms_whole_degrees (-74)). vm_compute. discriminate. Defined.

Lemma lat_long_error_class_witness :
  exn_cls (Exn ValueError "cannot convert float NaN to integer") = ValueError
  \/ exn_cls (Exn ValueError "cannot convert float NaN to integer") = OverflowError.
Proof.
  apply (lat_long_error_class (text_of "nan,0")
           (Exn ValueError "cannot convert float NaN to integer")).
  vm_compute. reflexivity.
Defined.

(** The fetcher, on the sample site. *)

Lemma parse_albums_mirrors_groups_witness :
  exists groups,
    groups_of listing = Ok groups
    /\ Forall2 (fun g a => getitem g "title" = Ok (title a)) groups albums.
Proof.
  apply (parse_albums_mirrors_groups listing "t" "s" s0 albums
           (_parse_albums listing "t" "s" s0).2).
  vm_compute. reflexivity.
Defined.

Lemma parse_albums_requests_witness :
  exists groups ids,
    groups_of listing = Ok groups
    /\ Forall2 (fun g n => getitem g "nodeId" = Ok n) groups ids
    /\ posts (_parse_albums listing "t" "s" s0).2
       = posts s0 ++ map (album_request "t" "s") ids
    /\ local (_parse_albums listing "t" "s" s0).2 = local s0.
Proof.
  apply (parse_albums_requests listing "t" "s" s0 albums
           (_parse_albums listing "t" "s" s0).2).
  vm_compute. reflexivity.
Defined.

Lemma parse_group_photos_witness :
  exists n text data items,
    getitem (VDict [("title", VStr "Summer"); ("nodeId", VInt 7)]) "nodeId" = Ok n
    /\ http_post (length (posts s0)) (album_request "t" "s" n) = Ok text
    /\ parse_js_object text = Ok data
    /\ items_of data = Ok items
    /\ Forall2 photo_of_item items
         [ {| photo_id := VStr "p1"; photo_title := VStr "beach.jpg";
              photo_url := "https://uniim-share.shutterfly.com/v2/procgtaserv/p1";
              photo_capture_date := Some (Datetime 2020 9 13 12 26 40) |};
           {| photo_id := VStr "p2"; photo_title := VStr "";
              photo_url := "https://uniim-share.shutterfly.com/v2/procgtaserv/p2";
              photo_capture_date := None |} ].
Proof.
  apply (parse_group_photos "t" "s"
           (VDict [("title", VStr "Summer"); ("nodeId", VInt 7)]) s0
           {| title := VStr "Summer";
              photos :=
                [ {| photo_id := VStr "p1"; photo_title := VStr "beach.jpg";
                     photo_url := "https://uniim-share.shutterfly.com/v2/procgtaserv/p1";
                     photo_capture_date := Some (Datetime 2020 9 13 12 26 40) |};
                  {| photo_id := VStr "p2"; photo_title := VStr "";
                     photo_url := "https://uniim-share.shutterfly.com/v2/procgtaserv/p2";
                     photo_capture_date := None |} ] |}
           (parse_group "t" "s"
              (VDict [("title", VStr "Summer"); ("nodeId", VInt 7)]) s0).2).
  vm_compute. reflexivity.
Defined.

Lemma get_albums_request_count_witness :
  exists l,
    posts (Fetch.get_albums "t" "s" s0).2 = posts s0 ++ listing_request "t" "s" :: l
    /\ length l = length albums
    /\ Forall (fun r => cookie r = "t" /\ target r = endpoint "s") l.
Proof.
  apply (get_albums_request_count "t" "s" s0 albums (Fetch.get_albums "t" "s" s0).2).
  vm_compute. reflexivity.
Defined.

Lemma get_albums_photo_urls_witness :
  Forall (fun a =>
    Forall (fun p => photo_url p = image_url (photo_id p)) (photos a)) albums.
Proof.
  apply (get_albums_photo_urls "t" "s" s0 albums (Fetch.get_albums "t" "s" s0).2).
  vm_compute. reflexivity.
Defined.

(** The downloader, on the sample library. *)

Lemma download_photo_touches_one_path_witness :
  fs (download_photo None (path_of_str "d/a") (Demo.photo "y") w_old).2 !! "d/a/x.jpg"
  = fs w_old !! "d/a/x.jpg".
Proof.
  apply (download_photo_touches_one_path None (path_of_str "d/a") (Demo.photo "y")
           w_old "d/a/y.jpg" w_old "d/a/x.jpg").
  - vm_compute. reflexivity.
  - discriminate.
Defined.

Lemma download_photo_stores_body_witness :
  (download_photo None (path_of_str "d/a") gif w_album).1 = Ok tt
  /\ fs (download_photo None (path_of_str "d/a") gif w_album).2
     = <["d/a/z.gif" := File [Byte.x47; Byte.x49; Byte.x46]
                          (stamped "d/a/z.gif" (capture_date gif))]> (fs w_album).
Proof.
  apply (download_photo_stores_body (path_of_str "d/a") gif w_album "d/a/z.gif"
           w_album [Byte.x47; Byte.x49; Byte.x46]); vm_compute; reflexivity.
Defined.

Lemma broken_stream_leaves_partial_file_witness :
  (@download_photo Flaky.flaky_env (Some new_york) (path_of_str "d/a") (Demo.photo "x.jpg")
     w_album).1 = Raise (Exn ConnectionError "Connection broken")
  /\ fs (@download_photo Flaky.flaky_env (Some new_york) (path_of_str "d/a")
           (Demo.photo "x.jpg") w_album).2
     = <["d/a/x.jpg" := File [Byte.xff; Byte.xd8; Byte.x01] None]> (fs w_album).
Proof.
  apply (@broken_stream_leaves_partial_file Flaky.flaky_env (Some new_york)
           (path_of_str "d/a") (Demo.photo "x.jpg") w_album "d/a/x.jpg" w_album
           [Byte.xff; Byte.xd8; Byte.x01] (Exn ConnectionError "Connection broken"));
    vm_compute; reflexivity.
Defined.

Lemma answered_photo_is_skipped_next_witness :
  (exists data mt,
     fs (download_photo (Some new_york) (path_of_str "d/a") (Demo.photo "x.jpg")
           w_album).2 !! probed (path_of_str "d/a") (Demo.photo "x.jpg")
     = Some (File data mt))
  /\ fs (download_photo (Some new_york) (path_of_str "d/a") (Demo.photo "x.jpg")
           (download_photo (Some new_york) (path_of_str "d/a") (Demo.photo "x.jpg")
              w_album).2).2
     = fs (download_photo (Some new_york) (path_of_str "d/a") (Demo.photo "x.jpg")
             w_album).2
  /\ gets (download_photo (Some new_york) (path_of_str "d/a") (Demo.photo "x.jpg")
             (download_photo (Some new_york) (path_of_str "d/a") (Demo.photo "x.jpg")
                w_album).2).2
     = gets (download_photo (Some new_york) (path_of_str "d/a") (Demo.photo "x.jpg")
               w_album).2.
Proof.
  apply (answered_photo_is_skipped_next (Some new_york) (path_of_str "d/a")
           (Demo.photo "x.jpg") w_album {| content := body; broken := None |});
    vm_compute; reflexivity.
Defined.

Lemma dotless_photo_is_fetched_again_witness :
  fs (download_photo None (path_of_str "d/a") (Demo.photo "x") w_album).2
    !! probed (path_of_str "d/a") (Demo.photo "x") = None
  /\ gets (download_photo None (path_of_str "d/a") (Demo.photo "x")
             (download_photo None (path_of_str "d/a") (Demo.photo "x") w_album).2).2
     = gets w_album ++ [url (Demo.photo "x"); url (Demo.photo "x")].
Proof.
  apply (dotless_photo_is_fetched_again None (path_of_str "d/a") (Demo.photo "x")
           w_album); vm_compute; reflexivity.
Defined.

Lemma album_directories_exist_witness :
  Forall (fun album =>
    fs (download_albums [Demo.album ["x.jpg"]] (path_of_str "d") None w0).2
      !! album_dir (path_of_str "d") album = Some Dir) [Demo.album ["x.jpg"]].
Proof.
  apply (album_directories_exist [Demo.album ["x.jpg"]] (path_of_str "d") None w0).
  vm_compute. reflexivity.
Defined.

(** The entry point, on the sample site, with [--verbose]. *)

Lemma main_rejects_geo_before_download_witness :
  (main args_bad_geo s0).1
  = match (Fetch.get_albums (token args_bad_geo) (site args_bad_geo)
             (configured (verbose args_bad_geo) s0)).1 with
    | Ok _ => Raise (Exn ValueError "not enough values to unpack")
    | Raise e' => Raise e'
    end
  /\ (main args_bad_geo s0).2
     = (Fetch.get_albums (token args_bad_geo) (site args_bad_geo)
          (configured (verbose args_bad_geo) s0)).2
  /\ fs (local (main args_bad_geo s0).2) = fs (local s0)
  /\ gets (local (main args_bad_geo s0).2) = gets (local s0).
Proof.
  apply (main_rejects_geo_before_download args_bad_geo s0 (text_of "abc")
           (Exn ValueError "not enough values to unpack")).
  - reflexivity.
  - discriminate.
  - vm_compute. reflexivity.
Defined.

Lemma main_status_witness :
  (1 = 0 /\ fs (local s0) !! str (path_of_str (directory args_verbose)) = Some Dir)
  \/ (1 = 1
      /\ fs (local s0) !! str (path_of_str (directory args_verbose)) <> Some Dir
      /\ fs (local (main args_verbose s0).2) = fs (local s0)
      /\ gets (local (main args_verbose s0).2) = gets (local s0)
      /\ posts (main args_verbose s0).2
         = posts (Fetch.get_albums (token args_verbose) (site args_verbose)
                    (configured (verbose args_verbose) s0)).2
      /\ exists text,
           http_post (length (posts s0))
             (listing_request (token args_verbose) (site args_verbose)) = Ok text
           /\ log (local (main args_verbose s0).2)
              = log (local s0)
                ++ emitted (if verbose args_verbose then DEBUG else INFO)
                     [(DEBUG, "Response: " +:+ text);
                      (ERROR, "Does not exist or is not a directory: "
                                +:+ str (path_of_str (directory args_verbose)))]).
Proof.
  apply (main_status args_verbose s0 1).
  vm_compute. reflexivity.
Defined.

(** The records of that run: the answer of the server, then the error. *)
Example verbose_run_logs_the_response :
  log (local (main args_verbose s0).2)
  = [ (DEBUG, "Response: " +:+ listing_text);
      (ERROR, "Does not exist or is not a directory: missing") ]
  /\ log (local (main args_missing s0).2)
     = [ (ERROR, "Does not exist or is not a directory: missing") ].
Proof. vm_compute. auto. Qed.

End MoreRuns.
